(** * DCPU-16 core: registers, operand translation and [Step]

    A shallow embedding of the CPU core of the emulator (package [dcpu]):
    [Region], [decodeOpcode], [wordCount], [translateOperand],
    [isProtected] and [Step], followed by the properties of the
    instruction cycle that the specification states.

    Conventions of the embedding.
    - A Go [Word] (uint16) is a [Z] in [0, 65536); every Go operation on
      [Word] that can leave the range is followed by [wrap].  Widened
      arithmetic on uint32 is followed by [wrap32].
    - [s.Ram] is a fixed array of 0x10000 words indexed by a [Word]; an
      index is never out of range, so the array is a total function
      from addresses to words.
    - [assignable *Word] is a pointer into the state: it is nil, or it
      points to one of the eleven register fields, or to an element of
      [s.Ram].  The pointer comparison against [&s.Ram[0]] and
      [&s.Ram[len-1]] in [Step] is true exactly for the last kind and the
      recovered index is the element's index.
    - A method on [*State] that mutates its receiver takes the state and
      returns the new one.  A Go panic is the [Panic] result. *)

From Stdlib Require Import ZArith List String Bool Lia.
Import ListNotations.
Local Open Scope Z_scope.

(** ** Words *)

Definition Word : Type := Z.

Definition wrap (x : Z) : Word := x mod 65536.
Definition wrap32 (x : Z) : Z := x mod 4294967296.

Definition isWord (x : Z) : Prop := 0 <= x < 65536.

(** ** Results: a value, or a Go panic with its message *)

Inductive result (T : Type) : Type :=
| Ok (x : T)
| Panic (msg : string).
Arguments Ok {T} x.
Arguments Panic {T} msg.

Definition bind {T U : Type} (c : result T) (k : T -> result U) : result U :=
  match c with
  | Ok x => k x
  | Panic msg => Panic msg
  end.

Notation "x <- c1 ;; c2" := (bind c1 (fun x => c2))
  (at level 61, c1 at next level, right associativity).
Notation "' pat <- c1 ;; c2" :=
  (bind c1 (fun x => match x with pat => c2 end))
  (at level 61, pat pattern, c1 at next level, right associativity).

(** ** Data model *)

Record ProtectionError : Type := mkProtectionError {
  Address : Word;
  Opcode : Word;
  OperandA : Word;
  OperandB : Word
}.

Module Registers.
Record t : Type := mk {
  A : Word; B : Word; C : Word; X : Word; Y : Word; Z : Word;
  I : Word; J : Word;
  PC : Word;
  SP : Word;
  O : Word
}.
End Registers.

Record Region : Type := mkRegion {
  Start : Word;
  Length : Word
}.

Definition End (r : Region) : Word := wrap (Start r + Length r).

Definition Contains (r : Region) (address : Word) : bool :=
  (Start r <=? address) && (address <? wrap (Start r + Length r)).

Definition Union (r r2 : Region) : Region :=
  let start := if Start r2 <? Start r then Start r2 else Start r in
  let length :=
    if End r <? End r2 then wrap (End r2 - start) else wrap (End r - start) in
  mkRegion start length.

Record State : Type := mkState {
  regs : Registers.t;
  Ram : Word -> Word;
  Protected : list Region
}.

(** The register fields a [*Word] can point to. *)
Inductive field : Type :=
| fA | fB | fC | fX | fY | fZ | fI | fJ | fPC | fSP | fO.

(** A [*Word] into the state. *)
Inductive pointer : Type :=
| PNil
| PReg (f : field)
| PRam (index : Word).

Definition field_eqb (f g : field) : bool :=
  match f, g with
  | fA, fA | fB, fB | fC, fC | fX, fX | fY, fY | fZ, fZ
  | fI, fI | fJ, fJ | fPC, fPC | fSP, fSP | fO, fO => true
  | _, _ => false
  end.

Definition getField (r : Registers.t) (f : field) : Word :=
  match f with
  | fA => Registers.A r | fB => Registers.B r | fC => Registers.C r
  | fX => Registers.X r | fY => Registers.Y r | fZ => Registers.Z r
  | fI => Registers.I r | fJ => Registers.J r
  | fPC => Registers.PC r | fSP => Registers.SP r | fO => Registers.O r
  end.

Definition setField (r : Registers.t) (f : field) (v : Word) : Registers.t :=
  let '(Registers.mk a b c x y z i j pc sp o) := r in
  match f with
  | fA => Registers.mk v b c x y z i j pc sp o
  | fB => Registers.mk a v c x y z i j pc sp o
  | fC => Registers.mk a b v x y z i j pc sp o
  | fX => Registers.mk a b c v y z i j pc sp o
  | fY => Registers.mk a b c x v z i j pc sp o
  | fZ => Registers.mk a b c x y v i j pc sp o
  | fI => Registers.mk a b c x y z v j pc sp o
  | fJ => Registers.mk a b c x y z i v pc sp o
  | fPC => Registers.mk a b c x y z i j v sp o
  | fSP => Registers.mk a b c x y z i j pc v o
  | fO => Registers.mk a b c x y z i j pc sp v
  end.

Definition reg (s : State) (f : field) : Word := getField (regs s) f.

Definition setReg (s : State) (f : field) (v : Word) : State :=
  mkState (setField (regs s) f v) (Ram s) (Protected s).

Definition setRam (s : State) (index v : Word) : State :=
  mkState (regs s)
          (fun i => if i =? index then v else Ram s i)
          (Protected s).

(** [*p] and [*p = v] for a non-nil pointer. *)
Definition deref (s : State) (p : pointer) : Word :=
  match p with
  | PNil => 0
  | PReg f => reg s f
  | PRam index => Ram s index
  end.

Definition assign (s : State) (p : pointer) (v : Word) : State :=
  match p with
  | PNil => s
  | PReg f => setReg s f v
  | PRam index => setRam s index v
  end.

(** ** Decoding *)

Definition decodeOpcode (opcode : Word) : Word * Word * Word :=
  let oooo := Z.land opcode 15 in
  let aaaaaa := Z.land (Z.shiftr opcode 4) 63 in
  let bbbbbb := Z.land (Z.shiftr opcode 10) 63 in
  (oooo, aaaaaa, bbbbbb).

(** Go's [switch] does not fall through: an empty [case] does nothing,
    so only the last case of each switch increments [count]. *)
Definition wordCount (opcode : Word) : Word :=
  let '(_, a, b) := decodeOpcode opcode in
  let count := 1 in
  let count :=
    if (16 <=? a) && (a <=? 23) then count
    else if a =? 30 then count
    else if a =? 31 then wrap (count + 1)
    else count in
  let count :=
    if (16 <=? b) && (b <=? 23) then count
    else if b =? 30 then count
    else if b =? 31 then wrap (count + 1)
    else count in
  count.

(** ** Operand translation *)

(** [s.PC++], [s.SP++], [s.SP--] on uint16. *)
Definition incPC (s : State) : State := setReg s fPC (wrap (reg s fPC + 1)).
Definition incSP (s : State) : State := setReg s fSP (wrap (reg s fSP + 1)).
Definition decSP (s : State) : State := setReg s fSP (wrap (reg s fSP - 1)).

(** [&s.Ram[s.Ram[s.PC]+s.R]] *)
Definition nextWordPlus (s : State) (f : field) : pointer :=
  PRam (wrap (Ram s (reg s fPC) + reg s f)).

Definition translateOperand (s : State) (op : Word)
  : result (Word * pointer * State) :=
  '(val, assignable, s) <-
    match op with
    | 0 => Ok (0, PReg fA, s)
    | 1 => Ok (0, PReg fB, s)
    | 2 => Ok (0, PReg fC, s)
    | 3 => Ok (0, PReg fX, s)
    | 4 => Ok (0, PReg fY, s)
    | 5 => Ok (0, PReg fZ, s)
    | 6 => Ok (0, PReg fI, s)
    | 7 => Ok (0, PReg fJ, s)
    | 8 => Ok (0, PRam (reg s fA), s)
    | 9 => Ok (0, PRam (reg s fB), s)
    | 10 => Ok (0, PRam (reg s fC), s)
    | 11 => Ok (0, PRam (reg s fX), s)
    | 12 => Ok (0, PRam (reg s fY), s)
    | 13 => Ok (0, PRam (reg s fZ), s)
    | 14 => Ok (0, PRam (reg s fI), s)
    | 15 => Ok (0, PRam (reg s fJ), s)
    | 16 => Ok (0, nextWordPlus s fA, incPC s)
    | 17 => Ok (0, nextWordPlus s fB, incPC s)
    | 18 => Ok (0, nextWordPlus s fC, incPC s)
    | 19 => Ok (0, nextWordPlus s fX, incPC s)
    | 20 => Ok (0, nextWordPlus s fY, incPC s)
    | 21 => Ok (0, nextWordPlus s fZ, incPC s)
    | 22 => Ok (0, nextWordPlus s fI, incPC s)
    | 23 => Ok (0, nextWordPlus s fJ, incPC s)
    | 24 => Ok (0, PRam (reg s fSP), incSP s)
    | 25 => Ok (0, PRam (reg s fSP), s)
    | 26 => let s := decSP s in Ok (0, PRam (reg s fSP), s)
    | 27 => Ok (0, PReg fSP, s)
    | 28 => Ok (0, PReg fPC, s)
    | 29 => Ok (0, PReg fO, s)
    | 30 => Ok (0, PRam (Ram s (reg s fPC)), incPC s)
    | 31 => Ok (Ram s (reg s fPC), PNil, incPC s)
    | _ =>
        if 64 <=? op then Panic "Out of bounds operand"
        else Ok (wrap (op - 32), PNil, s)
    end ;;
  match assignable with
  | PNil => Ok (val, assignable, s)
  | _ => Ok (deref s assignable, assignable, s)
  end.

(** ** Memory protection *)

Fixpoint isProtected_loop (regions : list Region) (address : Word) : bool :=
  match regions with
  | [] => false
  | region :: rest =>
      if Contains region address then true
      else if address <? Start region then false
      else isProtected_loop rest address
  end.

Definition isProtected (s : State) (address : Word) : bool :=
  isProtected_loop (Protected s) address.

(** ** Step *)

(** The [switch ins] of [Step]: the value to store and the state after
    the instruction's own effects on [O] and [PC]. *)
Definition skip (s : State) : State :=
  setReg s fPC (wrap (reg s fPC + wordCount (Ram s (reg s fPC)))).

Definition execute (s : State) (ins a b : Word) : result (Word * State) :=
  match ins with
  | 0 => Ok (0, s)
  | 1 => Ok (b, s)
  | 2 =>
      let result := wrap32 (a + b) in
      Ok (wrap (Z.land result 65535), setReg s fO (wrap (Z.shiftr result 16)))
  | 3 =>
      let result := wrap32 (a - b) in
      Ok (wrap (Z.land result 65535), setReg s fO (wrap (Z.shiftr result 16)))
  | 4 =>
      let result := wrap32 (a * b) in
      Ok (wrap (Z.land result 65535), setReg s fO (wrap (Z.shiftr result 16)))
  | 5 =>
      if b =? 0 then Panic "runtime error: integer divide by zero"
      else Ok (a / b, setReg s fO (a mod b))
  | 6 =>
      if b =? 0 then Panic "runtime error: integer divide by zero"
      else Ok (a mod b, s)
  | 7 =>
      let result := wrap32 (Z.shiftl a b) in
      Ok (wrap (Z.land result 65535), setReg s fO (wrap (Z.shiftr result 16)))
  | 8 => Ok (Z.shiftr a b, s)
  | 9 => Ok (Z.land a b, s)
  | 10 => Ok (Z.lor a b, s)
  | 11 => Ok (Z.lxor a b, s)
  | 12 => Ok (0, if negb (a =? b) then skip s else s)
  | 13 => Ok (0, if a =? b then skip s else s)
  | 14 => Ok (0, if a <=? b then skip s else s)
  | 15 => Ok (0, if Z.land a b =? 0 then skip s else s)
  | _ => Panic "Out of bounds opcode"
  end.

(** The loop over [s.Protected] in the store phase of [Step]: the error
    it returns, if any. *)
Fixpoint protectionCheck (regions : list Region)
  (index opcode a b : Word) : option ProtectionError :=
  match regions with
  | [] => None
  | region :: rest =>
      if Contains region index
      then Some (mkProtectionError index opcode a b)
      else if index <? Start region then None
      else protectionCheck rest index opcode a b
  end.

Definition store (s : State) (opcode ins a b val : Word)
  (assignable : pointer) : State * option ProtectionError :=
  if (1 <=? ins) && (ins <=? 11) then
    match assignable with
    | PNil => (s, None)
    | PReg _ => (assign s assignable val, None)
    | PRam index =>
        match protectionCheck (Protected s) index opcode a b with
        | Some err => (s, Some err)
        | None => (assign s assignable val, None)
        end
    end
  else (s, None).

Definition Step (s : State) : result (State * option ProtectionError) :=
  (* fetch *)
  let opcode := Ram s (reg s fPC) in
  let s := incPC s in
  (* decode *)
  let '(ins, a, b) := decodeOpcode opcode in
  '(a, assignable, s) <- translateOperand s a ;;
  '(b, _, s) <- translateOperand s b ;;
  (* execute *)
  '(val, s) <- execute s ins a b ;;
  (* store *)
  Ok (store s opcode ins a b val assignable).

(** ** Running programs *)

Definition zeroRegisters : Registers.t :=
  Registers.mk 0 0 0 0 0 0 0 0 0 0 0.

(** Backing memory that holds [words] from address 0 and zero elsewhere. *)
Definition ramOf (words : list Word) : Word -> Word :=
  fun i => if i <? 0 then 0 else nth (Z.to_nat i) words 0.

(** The zeroed initial state with a program at address 0. *)
Definition boot (words : list Word) : State :=
  mkState zeroRegisters (ramOf words) [].

(** [n] calls of [Step], stopping at the first error. *)
Fixpoint steps (n : nat) (s : State) : result (State * option ProtectionError) :=
  match n with
  | O => Ok (s, None)
  | S n' =>
      '(s1, err) <- Step s ;;
      match err with
      | Some _ => Ok (s1, err)
      | None => steps n' s1
      end
  end.

(** ** Vocabulary of the specification *)

(** Operand codes that the specification's table marks "extra word". *)
Definition extraWord (op : Word) : bool :=
  ((16 <=? op) && (op <=? 23)) || (op =? 30) || (op =? 31).

(** The exact integer result of the four overflow-setting instructions. *)
Definition trueResult (ins a b : Word) : Z :=
  match ins with
  | 2 => a + b
  | 3 => a - b
  | 4 => a * b
  | 7 => a * 2 ^ b
  | _ => 0
  end.

(** The Protected list is ordered by [Start]. *)
Fixpoint sortedByStart (regions : list Region) : Prop :=
  match regions with
  | [] => True
  | r :: rest =>
      (forall r2, In r2 rest -> Start r <= Start r2) /\ sortedByStart rest
  end.

(** The condition under which a conditional instruction skips, as the
    comments of the four cases state it. *)
Definition skipTaken (ins a b : Word) : bool :=
  match ins with
  | 12 => negb (a =? b)
  | 13 => a =? b
  | 14 => a <=? b
  | 15 => Z.land a b =? 0
  | _ => false
  end.

(** [PC] and [SP] after the translation of one operand code. *)
Definition pcAfter (op pc : Word) : Word :=
  if extraWord op then wrap (pc + 1) else pc.

Definition spAfter (op sp : Word) : Word :=
  if op =? 24 then wrap (sp + 1)
  else if op =? 26 then wrap (sp - 1)
  else sp.

(** Operand codes 0..7 name the registers [A] .. [J]. *)
Definition registerOf (op : Word) : field :=
  match op with
  | 0 => fA | 1 => fB | 2 => fC | 3 => fX
  | 4 => fY | 5 => fZ | 6 => fI | _ => fJ
  end.

(** The state of the protection scenario: [0x1000, 0x1010) protected,
    the given program at address 0, registers zero. *)
Definition protectedBoot (words : list Word) : State :=
  mkState zeroRegisters (ramOf words) [mkRegion 0x1000 0x10].

(** The state of the fault scenario for a push: [SP] just above the
    protected range, so that [SET PUSH, 1] (word 0x85A1) targets the
    protected word 0x1000. *)
Definition pushIntoProtected : State :=
  mkState (Registers.mk 0 0 0 0 0 0 0 0 0 0x1001 0)
          (ramOf [0x85A1]) [mkRegion 0x1000 0x10].

Definition pushIntoProtected_after : State :=
  mkState (Registers.mk 0 0 0 0 0 0 0 0 1 0x1000 0)
          (ramOf [0x85A1]) [mkRegion 0x1000 0x10].

(** The state between the two instructions of the stack scenario. *)
Definition afterPush : State :=
  mkState (Registers.mk 0 0 0 0 0 0 0 0 2 0xFFFF 0)
          (fun i => if i =? 0xFFFF then 0x1234
                    else ramOf [0x7DA1; 0x1234; 0x6001] i)
          [].

(** The instruction codes listed as leaving [O] untouched: SET, MOD, SHR,
    AND, BOR, XOR and the four conditionals. *)
Definition leavesO (ins : Word) : bool :=
  match ins with
  | 1 | 6 | 8 | 9 | 10 | 11 | 12 | 13 | 14 | 15 => true
  | _ => false
  end.

(** Every register and every memory word is a 16-bit value. *)
Definition wfState (s : State) : Prop :=
  (forall f, isWord (reg s f)) /\ (forall i, isWord (Ram s i)).

(** The word with the given instruction and operand fields. *)
Definition assemble (ins a b : Word) : Word := ins + 16 * a + 1024 * b.

(** Operand codes whose location is a word of [Ram]: [[reg]],
    [[next word + reg]], POP, PEEK, PUSH and [[next word]]. *)
Definition memoryOperand (op : Word) : bool :=
  ((8 <=? op) && (op <=? 26)) || (op =? 30).

Definition isRamPointer (p : pointer) : bool :=
  match p with
  | PRam _ => true
  | _ => false
  end.

(** The number of words an instruction with operand codes [a] and [b]
    occupies: the instruction word and one word for each operand that
    reads a next word. *)
Definition instructionWords (a b : Word) : Z :=
  1 + (if extraWord a then 1 else 0) + (if extraWord b then 1 else 0).

(** ** The program file (package main) *)

Definition isByte (x : Z) : Prop := 0 <= x < 256.

(** [w = b1<<8 + b2], or [b2<<8 + b1] for a little-endian file, on
    [Word]. *)
Definition wordOfBytes (littleEndian : bool) (b1 b2 : Word) : Word :=
  if littleEndian
  then wrap (wrap (Z.shiftl b2 8) + b1)
  else wrap (wrap (Z.shiftl b1 8) + b2).

(** The loop of [main] that interprets the file as words: [len(data)/2]
    words, word [i] from bytes [2i] and [2i+1]. *)
Definition wordsOfData (littleEndian : bool) (data : list Z) : list Word :=
  map (fun i => wordOfBytes littleEndian
                  (nth (i * 2) data 0) (nth (i * 2 + 1) data 0))
      (seq 0 (Nat.div (List.length data) 2)).

(** ** The video peripheral (video.go) *)

(** The constants and the attribute type of the terminal library, which
    the sources import; [Attribute] is the conversion to its attribute
    type. *)
Record Termbox : Type := mkTermbox {
  ColorDefault : Z;
  ColorBlack : Z;
  ColorXterm256 : Z;
  XtermColorShift : Z;
  AttrBold : Z;
  AttrBlink : Z;
  AttrAltCharset : Z;
  Attribute : Z -> Z
}.

(** One call [termbox.SetCell(x, y, ch, fg, bg)]. *)
Record SetCell : Type := mkSetCell {
  cellX : Z;
  cellY : Z;
  cellCh : Z;
  cellFg : Z;
  cellBg : Z
}.

Definition windowWidth : Z := 32.
Definition windowHeight : Z := 12.
Definition characterRangeStart : Z := 0x0180.
Definition miscRangeStart : Z := 0x0280.
Definition backgroundColorAddress : Z := 0x0280.

Definition colorToAnsi : list Z :=
  [16; 19; 34; 37; 124; 127; 130; 145; 59; 63; 71; 87; 203; 207; 227; 231].

Definition glyphMap (ch : Z) : option Z :=
  match ch with
  | 0 => Some 109
  | 1 => Some 118
  | 2 => Some 119
  | 3 => Some 116
  | _ => None
  end.

Record Video : Type := mkVideo {
  RefreshRate : Z;
  words : Z -> Word;
  mapped : bool
}.

(** [colorToAnsi[color]] panics on an index of 16 or more. *)
Definition colorToAttr (tb : Termbox) (supportsXterm256 : bool) (color : Z)
  : result Z :=
  if supportsXterm256 then
    if color =? 0 then Ok (ColorBlack tb)
    else
      match nth_error colorToAnsi (Z.to_nat color) with
      | None => Panic "runtime error: index out of range"
      | Some ansi =>
          Ok (Z.lor (ColorXterm256 tb)
                    (Attribute tb (Z.shiftl (Attribute tb ansi)
                                            (XtermColorShift tb))))
      end
  else
    let attr := ColorDefault tb in
    let attr :=
      if negb (Z.land color 8 =? 0) then Z.lor attr (AttrBold tb) else attr in
    let ansi := 0 in
    let ansi := if negb (Z.land color 1 =? 0) then Z.lor ansi 4 else ansi in
    let ansi := if negb (Z.land color 2 =? 0) then Z.lor ansi 2 else ansi in
    let ansi := if negb (Z.land color 4 =? 0) then Z.lor ansi 1 else ansi in
    Ok (Z.lor attr (Attribute tb (ansi + ColorBlack tb))).

(** The functions below return the calls of [SetCell] they make, in
    order. *)
Definition updateCell (tb : Termbox) (supportsXterm256 : bool)
  (row column : Z) (word : Word) : result (list SetCell) :=
  let row := row + 1 in
  let column := column + 1 in
  let ch := Z.land word 0x7F in
  let flag := negb (Z.land word 0x80 =? 0) in
  let colors := (Z.shiftr (Z.land word 0xFF00) 8) mod 256 in
  let fgNibble := Z.shiftr (Z.land colors 0xF0) 4 in
  let bgNibble := Z.land colors 0x0F in
  fg <- colorToAttr tb supportsXterm256 fgNibble ;;
  bg <- colorToAttr tb supportsXterm256 bgNibble ;;
  let fg := if flag then Z.lor fg (AttrBlink tb) else fg in
  let '(ch, fg) :=
    if (ch <? 32) || (ch =? 127) then
      let ch := if ch =? 127 then 32 else ch in
      let ch :=
        match glyphMap ch with
        | Some glyph => glyph
        | None => ch mod 26 + 97
        end in
      (ch, Z.lor fg (AttrAltCharset tb))
    else (ch, fg) in
  Ok [mkSetCell column row ch fg bg].

(** [for x := from; x < from + count; x++] *)
Definition range (from : Z) (count : nat) : list Z :=
  map (fun i => from + Z.of_nat i) (seq 0 count).

Definition drawBorder (tb : Termbox) (supportsXterm256 : bool) (v : Video)
  : result (list SetCell) :=
  let color := (Z.land (words v backgroundColorAddress) 0xf) mod 256 in
  attr <- colorToAttr tb supportsXterm256 color ;;
  Ok (flat_map
        (fun row =>
           map (fun col => mkSetCell col row 32 (ColorDefault tb) attr)
               (range 0 (Z.to_nat (windowWidth + 2))))
        [0; windowHeight + 1]
      ++
      flat_map
        (fun col =>
           map (fun row => mkSetCell col row 32 (ColorDefault tb) attr)
               (range 1 (Z.to_nat windowHeight)))
        [0; windowWidth + 1]).

Definition clearDisplay (tb : Termbox) : list SetCell :=
  let attr := ColorBlack tb in
  flat_map
    (fun row =>
       map (fun col => mkSetCell col row 32 (ColorDefault tb) attr)
           (range 1 (Z.to_nat windowWidth)))
    (range 1 (Z.to_nat windowHeight)).

Definition handleChange (tb : Termbox) (supportsXterm256 : bool) (v : Video)
  (offset : Word) : result (list SetCell) :=
  if offset <? characterRangeStart then
    let row := offset / windowWidth in
    let column := offset mod windowWidth in
    updateCell tb supportsXterm256 row column (words v offset)
  else if offset <? miscRangeStart then Ok []
  else if offset =? backgroundColorAddress then
    drawBorder tb supportsXterm256 v
  else Ok [].

(** The callbacks that [MapToMachine] registers: [get] reads and [set]
    writes [v.words[offset]], an array of 0x400 words, and [set] then
    calls [handleChange]. *)
Definition videoGet (v : Video) (offset : Word) : result Word :=
  if offset <? 0x400 then Ok (words v offset)
  else Panic "runtime error: index out of range".

Definition videoSet (tb : Termbox) (supportsXterm256 : bool) (v : Video)
  (offset val : Word) : result (Video * list SetCell) :=
  if offset <? 0x400 then
    let v := mkVideo (RefreshRate v)
                     (fun i => if i =? offset then val else words v i)
                     (mapped v) in
    calls <- handleChange tb supportsXterm256 v offset ;;
    Ok (v, calls)
  else Panic "runtime error: index out of range".

(** The number of calls in a list that set the cell in column [x] and
    row [y]. *)
Definition cellsAt (x y : Z) (calls : list SetCell) : nat :=
  List.length
    (filter (fun c => (cellX c =? x) && (cellY c =? y)) calls).

(** [MapToMachine] and [UnmapFromMachine].  The machine's [MapRegion]
    and [UnmapRegion] belong to the memory package, which is taken as
    given: they act on a machine of type [M] and return the machine and
    an error, if any.  An error is modelled by its message. *)
Section Mapping.

Context {M : Type}.

Variable MapRegion :
  M -> Word -> Word ->
  (Video -> Word -> result Word) ->
  (Video -> Word -> Word -> result (Video * list SetCell)) ->
  M * option string.

Variable UnmapRegion : M -> Word -> Word -> M * option string.

Definition setMapped (v : Video) (b : bool) : Video :=
  mkVideo (RefreshRate v) (words v) b.

Definition MapToMachine (tb : Termbox) (supportsXterm256 : bool)
  (v : Video) (offset : Word) (m : M) : Video * M * option string :=
  if mapped v then (v, m, Some "Video is already mapped to a machine"%string)
  else
    let '(m, err) :=
      MapRegion m offset 0x400 videoGet (videoSet tb supportsXterm256) in
    match err with
    | Some e => (v, m, Some e)
    | None => (setMapped v true, m, None)
    end.

Definition UnmapFromMachine (v : Video) (offset : Word) (m : M)
  : Video * M * option string :=
  if negb (mapped v)
  then (v, m, Some "Video is not mapped to a machine"%string)
  else
    let '(m, err) := UnmapRegion m offset 0x400 in
    match err with
    | Some e => (v, m, Some e)
    | None => (setMapped v false, m, None)
    end.

End Mapping.

(** * Properties *)

(** ** Words and decoding *)

Lemma wrap_isWord (x : Z) : isWord (wrap x).
Proof. unfold isWord, wrap. apply Z.mod_pos_bound. lia. Qed.

Lemma wrap_small (x : Z) : isWord x -> wrap x = x.
Proof. unfold isWord, wrap. intros H. apply Z.mod_small. exact H. Qed.

Lemma land_15 (x : Z) : Z.land x 15 = x mod 16.
Proof. change 15 with (Z.ones 4). rewrite Z.land_ones by lia. reflexivity. Qed.

Lemma land_63 (x : Z) : Z.land x 63 = x mod 64.
Proof. change 63 with (Z.ones 6). rewrite Z.land_ones by lia. reflexivity. Qed.

Lemma land_65535 (x : Z) : Z.land x 65535 = x mod 65536.
Proof. change 65535 with (Z.ones 16). rewrite Z.land_ones by lia. reflexivity. Qed.

Lemma decodeOpcode_bounds (opcode ins a b : Word) :
  decodeOpcode opcode = (ins, a, b) ->
  0 <= ins < 16 /\ 0 <= a < 64 /\ 0 <= b < 64.
Proof.
  unfold decodeOpcode. intros H. inversion H; subst; clear H.
  rewrite land_15, !land_63.
  repeat split; try (apply Z.mod_pos_bound; lia).
Qed.

(** Case analysis on an operand or instruction code by its binary
    digits, [n] digits deep. *)
Ltac digits p n :=
  lazymatch n with
  | O => idtac
  | S ?k => destruct p as [p|p|]; [digits p k | digits p k | ]
  end.

Ltac code_cases op n :=
  let p := fresh "p" in
  destruct op as [|p|p]; [ | digits p n | ].

(** ** Results *)

Lemma Ok_pair_inj {T U : Type} (x x' : T) (y y' : U) :
  Ok (x, y) = Ok (x', y') -> x = x' /\ y = y'.
Proof. intros H. inversion H. split; reflexivity. Qed.

Lemma Ok_triple_inj {T U V : Type} (x x' : T) (y y' : U) (z z' : V) :
  Ok (x, y, z) = Ok (x', y', z') -> x = x' /\ y = y' /\ z = z'.
Proof. intros H. inversion H. repeat split; reflexivity. Qed.

(** ** Register file and pointers *)

Lemma getField_setField (r : Registers.t) (f g : field) (v : Word) :
  getField (setField r f v) g = if field_eqb f g then v else getField r g.
Proof. destruct r, f, g; reflexivity. Qed.

Lemma field_eqb_eq (f g : field) : field_eqb f g = true <-> f = g.
Proof. destruct f, g; simpl; split; intros H; congruence. Qed.

Lemma reg_setReg (s : State) (f g : field) (v : Word) :
  reg (setReg s f v) g = if field_eqb f g then v else reg s g.
Proof. unfold reg, setReg; simpl. apply getField_setField. Qed.

(** ** Operand translation: what a translation does to the state *)

(** One lemma records every effect of [translateOperand]: memory and the
    Protected list are never written, [PC] moves by one word exactly for
    the extra-word codes, [SP] moves only for POP and PUSH, the other
    registers are unchanged, and the value returned is the content of the
    location returned (read after the side effects). *)
Lemma translateOperand_effects (s s' : State) (op val : Word) (p : pointer) :
  translateOperand s op = Ok (val, p, s') ->
  Ram s' = Ram s /\ Protected s' = Protected s /\
  reg s' fPC = (if extraWord op then wrap (reg s fPC + 1) else reg s fPC) /\
  reg s' fSP = (if op =? 24 then wrap (reg s fSP + 1)
                else if op =? 26 then wrap (reg s fSP - 1)
                else reg s fSP) /\
  (forall f, f <> fPC -> f <> fSP -> reg s' f = reg s f) /\
  (p <> PNil -> val = deref s' p) /\
  (p = PReg fO <-> op = 29).
Proof.
  intros H. unfold translateOperand in H.
  code_cases op 6%nat; cbn in H;
    try (match type of H with
         | context [if ?c then _ else _] => destruct c
         end; cbn in H);
    try discriminate;
    inversion H; subst; clear H;
    unfold incPC, incSP, decSP;
    (repeat split; try discriminate; try congruence;
     try (intros f Hpc Hsp; destruct f);
     rewrite ?reg_setReg; try reflexivity; congruence).
Qed.

(** [translateOperand] panics only on a code of 64 or more. *)
Lemma translateOperand_total (s : State) (op : Word) :
  op < 64 -> exists val p s', translateOperand s op = Ok (val, p, s').
Proof.
  intros H. unfold translateOperand.
  code_cases op 6%nat; cbn; try (eexists _, _, _; reflexivity); lia.
Qed.

Lemma translateOperand_panic (s : State) (op : Word) (msg : string) :
  translateOperand s op = Panic msg ->
  64 <= op /\ msg = "Out of bounds operand"%string.
Proof.
  intros H. destruct (Z.ltb_spec op 64) as [Hlt|Hge].
  - destruct (translateOperand_total s op Hlt) as (v & p & s' & E). congruence.
  - split; [exact Hge|].
    unfold translateOperand in H.
    code_cases op 6%nat; try lia; cbn in H;
      match type of H with
      | context [if ?c then _ else _] => destruct c
      end; cbn in H; congruence.
Qed.

(** ** The execute phase *)

(** The only panics of [execute]: a zero divisor in DIV or MOD, and an
    instruction code outside 0..15. *)
Lemma execute_panic (s : State) (ins a b : Word) (msg : string) :
  execute s ins a b = Panic msg ->
  ((ins = 5 \/ ins = 6) /\ b = 0 /\
   msg = "runtime error: integer divide by zero"%string) \/
  (~ 0 <= ins < 16 /\ msg = "Out of bounds opcode"%string).
Proof.
  intros H.
  code_cases ins 4%nat; unfold execute in H; try discriminate;
    try (right; split; [lia | congruence]);
    left; destruct (Z.eqb_spec b 0); try discriminate;
    (split; [lia | split; [assumption | congruence]]).
Qed.

Lemma execute_total (s : State) (ins a b : Word) :
  0 <= ins < 16 -> (ins = 5 \/ ins = 6 -> b <> 0) ->
  exists val s', execute s ins a b = Ok (val, s').
Proof.
  intros Hins Hb. destruct (execute s ins a b) as [[val s']|msg] eqn:E.
  - eauto.
  - apply execute_panic in E. destruct E as [(H5 & H0 & _)|(Hn & _)].
    + specialize (Hb H5). contradiction.
    + contradiction.
Qed.

(** [execute] writes [O] for ADD, SUB, MUL, DIV and SHL, moves [PC] for
    a conditional that skips, and touches nothing else. *)
Lemma execute_frame (s s' : State) (ins a b val : Word) :
  execute s ins a b = Ok (val, s') ->
  Ram s' = Ram s /\ Protected s' = Protected s /\
  (forall f, f <> fPC -> f <> fO -> reg s' f = reg s f) /\
  (ins < 12 -> reg s' fPC = reg s fPC) /\
  (ins <> 2 -> ins <> 3 -> ins <> 4 -> ins <> 5 -> ins <> 7 ->
   reg s' fO = reg s fO).
Proof.
  intros H.
  code_cases ins 4%nat; unfold execute in H; try discriminate;
    try (destruct (Z.eqb_spec b 0); try discriminate);
    inversion H; subst; clear H; unfold skip;
    try match goal with
        | |- context [if ?c then _ else _] => destruct c
        end;
    (split; [reflexivity|]; split; [reflexivity|];
     split; [intros f Hpc Ho; destruct f|split; intros];
     rewrite ?reg_setReg; try reflexivity; try lia; congruence).
Qed.

(** ** The shape of a step *)

(** [Step] is: fetch, translate [a], translate [b], execute, store, in
    that order, each phase working on the state the previous one left. *)
Lemma Step_phases (s s1 s2 s3 : State) (ins a b va vb val : Word)
  (pa pb : pointer) :
  decodeOpcode (Ram s (reg s fPC)) = (ins, a, b) ->
  translateOperand (incPC s) a = Ok (va, pa, s1) ->
  translateOperand s1 b = Ok (vb, pb, s2) ->
  execute s2 ins va vb = Ok (val, s3) ->
  Step s = Ok (store s3 (Ram s (reg s fPC)) ins va vb val pa).
Proof.
  intros D Ta Tb E. unfold Step. rewrite D. cbn.
  rewrite Ta. cbn. rewrite Tb. cbn. rewrite E. reflexivity.
Qed.

Lemma Step_inv (s s' : State) (err : option ProtectionError) :
  Step s = Ok (s', err) ->
  exists ins a b va pa s1 vb pb s2 val s3,
    decodeOpcode (Ram s (reg s fPC)) = (ins, a, b) /\
    translateOperand (incPC s) a = Ok (va, pa, s1) /\
    translateOperand s1 b = Ok (vb, pb, s2) /\
    execute s2 ins va vb = Ok (val, s3) /\
    store s3 (Ram s (reg s fPC)) ins va vb val pa = (s', err).
Proof.
  intros H. unfold Step in H.
  destruct (decodeOpcode (Ram s (reg s fPC))) as [[ins a] b] eqn:D.
  destruct (translateOperand (incPC s) a) as [[[va pa] s1]|m] eqn:Ta;
    cbn in H; [|discriminate].
  destruct (translateOperand s1 b) as [[[vb pb] s2]|m] eqn:Tb;
    cbn in H; [|discriminate].
  destruct (execute s2 ins va vb) as [[val s3]|m] eqn:E;
    cbn in H; [|discriminate].
  inversion H as [Hs]. exists ins, a, b, va, pa, s1, vb, pb, s2, val, s3.
  repeat split; reflexivity || assumption.
Qed.

(** The only way [Step] panics is a DIV or MOD whose second operand
    evaluates to zero. *)
Lemma Step_panic (s : State) (msg : string) :
  Step s = Panic msg ->
  msg = "runtime error: integer divide by zero"%string /\
  exists ins a b va pa s1 pb s2,
    decodeOpcode (Ram s (reg s fPC)) = (ins, a, b) /\
    (ins = 5 \/ ins = 6) /\
    translateOperand (incPC s) a = Ok (va, pa, s1) /\
    translateOperand s1 b = Ok (0, pb, s2).
Proof.
  intros H. unfold Step in H.
  destruct (decodeOpcode (Ram s (reg s fPC))) as [[ins a] b] eqn:D.
  destruct (decodeOpcode_bounds _ _ _ _ D) as (Hi & Ha & Hb).
  destruct (translateOperand (incPC s) a) as [[[va pa] s1]|m] eqn:Ta;
    cbn in H.
  2:{ apply translateOperand_panic in Ta. lia. }
  destruct (translateOperand s1 b) as [[[vb pb] s2]|m] eqn:Tb;
    cbn in H.
  2:{ apply translateOperand_panic in Tb. lia. }
  destruct (execute s2 ins va vb) as [[val s3]|m] eqn:E;
    cbn in H; [discriminate|].
  inversion H; subst m; clear H.
  apply execute_panic in E. destruct E as [(H56 & H0 & Hm)|(Hn & _)].
  - subst vb. split; [exact Hm|].
    exists ins, a, b, va, pa, s1, pb, s2. repeat split; assumption.
  - contradiction.
Qed.

(** * The instruction word *)

(** C9. Every instruction word decodes to an instruction code in 0..15
    and two operand codes in 0..63.  Hence [translateOperand] never
    reaches its "Out of bounds operand" panic on a decoded operand, the
    switch of [Step] never reaches its "Out of bounds opcode" panic on a
    decoded instruction code, and [Step] raises neither. *)
Theorem decoded_fields_in_bounds :
  forall (s : State) (opcode : Word),
    let '(ins, a, b) := decodeOpcode opcode in
    (0 <= ins <= 15 /\ 0 <= a <= 63 /\ 0 <= b <= 63) /\
    translateOperand s a <> Panic "Out of bounds operand" /\
    translateOperand s b <> Panic "Out of bounds operand" /\
    (forall va vb, execute s ins va vb <> Panic "Out of bounds opcode") /\
    Step s <> Panic "Out of bounds opcode" /\
    Step s <> Panic "Out of bounds operand".
Proof.
  intros s opcode.
  destruct (decodeOpcode opcode) as [[ins a] b] eqn:D.
  destruct (decodeOpcode_bounds _ _ _ _ D) as (Hi & Ha & Hb).
  split; [lia|].
  split; [intros T; apply translateOperand_panic in T; lia|].
  split; [intros T; apply translateOperand_panic in T; lia|].
  split.
  { intros va vb E. apply execute_panic in E.
    destruct E as [(_ & _ & Hm)|(Hn & _)]; [discriminate|lia]. }
  split; intros P; apply Step_panic in P; destruct P as [Hm _];
    discriminate.
Qed.

(** * Conditional skip and [wordCount] *)

(** What [wordCount] computes: one, plus one for each operand whose code
    is 31.  The cases for codes 16..23 and 30 have empty bodies. *)
Lemma wordCount_value (opcode : Word) :
  wordCount opcode =
  let '(_, a, b) := decodeOpcode opcode in
  1 + (if a =? 31 then 1 else 0) + (if b =? 31 then 1 else 0).
Proof.
  unfold wordCount.
  destruct (decodeOpcode opcode) as [[ins a] b] eqn:D.
  destruct (decodeOpcode_bounds _ _ _ _ D) as (_ & Ha & Hb).
  destruct (Z.eqb_spec a 31) as [->|Na]; destruct (Z.eqb_spec b 31) as [->|Nb];
    cbn;
    repeat match goal with
           | |- context [if ?c then _ else _] => destruct c
           end; reflexivity.
Qed.

(** A conditional whose skip is taken moves [PC] by [wordCount] of the
    word it finds at [PC] after its own operands. *)
Lemma skip_PC (s : State) :
  reg (skip s) fPC = wrap (reg s fPC + wordCount (Ram s (reg s fPC))).
Proof. unfold skip. rewrite reg_setReg. reflexivity. Qed.

(** C1. The skip of a conditional is [wordCount] words long, but
    [wordCount] counts an extra word only for operand code 31, not for
    16..23 or 30.  On [IFN A, 0] followed by the three-word instruction
    [SET [0x1000], 0x42] (word 0x7DE1, operands 30 and 31) the count is 2,
    and the skip lands on address 3, the last word of the instruction it
    should have passed. *)
Theorem wordCount_short_on_indirect_operands :
  decodeOpcode 0x7DE1 = (1, 30, 31) /\
  extraWord 30 = true /\ extraWord 31 = true /\
  wordCount 0x7DE1 = 2 /\
  wordCount 0x7801 = 1 /\
  wordCount 0x4101 = 1 /\
  exists s',
    Step (boot [0x800D; 0x7DE1; 0x1000; 0x0042; 0x8401]) = Ok (s', None) /\
    reg s' fPC = 3.
Proof.
  repeat split; try reflexivity.
  eexists. split; reflexivity.
Qed.

(** * Division *)

(** C2. A zero divisor aborts [Step]: Go's integer division and remainder
    panic on a zero divisor and the DIV and MOD cases divide unguarded.
    The programs [DIV A, 0] (word 0x8005) and [MOD A, 0] (word 0x8006)
    from the zeroed state end in that panic, with no [val] and no [O]. *)
Theorem zero_divisor_panics :
  (forall (s : State) (a : Word),
      execute s 5 a 0 = Panic "runtime error: integer divide by zero" /\
      execute s 6 a 0 = Panic "runtime error: integer divide by zero") /\
  decodeOpcode 0x8005 = (5, 0, 32) /\
  decodeOpcode 0x8006 = (6, 0, 32) /\
  Step (boot [0x8005]) = Panic "runtime error: integer divide by zero" /\
  Step (boot [0x8006]) = Panic "runtime error: integer divide by zero".
Proof.
  split; [intros s a; split; reflexivity|].
  repeat split; reflexivity.
Qed.

(** * Overflow register arithmetic *)

(** Splitting a 32-bit result into the stored word and the [O] word. *)
Lemma split_result (r : Z) :
  0 <= r < 4294967296 ->
  wrap (Z.land r 65535) = r mod 65536 /\
  wrap (Z.shiftr r 16) = r / 65536 /\
  r / 65536 * 65536 + r mod 65536 = r.
Proof.
  intros Hr. rewrite land_65535.
  rewrite Z.shiftr_div_pow2 by lia. change (2 ^ 16) with 65536.
  unfold wrap. rewrite Z.mod_mod by lia.
  assert (0 <= r / 65536 < 65536).
  { split; [apply Z.div_pos; lia|apply Z.div_lt_upper_bound; lia]. }
  rewrite (Z.mod_small (r / 65536)) by assumption.
  repeat split. pose proof (Z.div_mod r 65536). lia.
Qed.

Lemma overflow_pair (s : State) (x : Z) :
  let r := wrap32 x in
  let val := wrap (Z.land r 65535) in
  let s' := setReg s fO (wrap (Z.shiftr r 16)) in
  isWord val /\ isWord (reg s' fO) /\
  reg s' fO * 65536 + val = x mod 4294967296 /\
  reg s' fO = (x mod 4294967296) / 65536.
Proof.
  intros r val s'. subst val s'. rewrite reg_setReg.
  change (field_eqb fO fO) with true. cbv iota.
  assert (Hr : 0 <= r < 4294967296)
    by (apply Z.mod_pos_bound; lia).
  destruct (split_result r Hr) as (Hv & Ho & Hsum).
  repeat split; try apply wrap_isWord.
  - rewrite Hv, Ho. exact Hsum.
  - exact Ho.
Qed.

(** C4. For 16-bit [a] and [b], ADD, SUB, MUL and SHL leave a stored
    word [val] and an overflow word [O] with
    [O * 2^16 + val = true_result mod 2^32], where the true result is
    [a+b], [a-b], [a*b], [a*2^b]; and SUB leaves [O = 0xFFFF] exactly
    when [a < b], and [O = 0] otherwise. *)
Theorem overflow_word_is_high_half (s : State) (ins a b : Word) :
  isWord a -> isWord b ->
  ins = 2 \/ ins = 3 \/ ins = 4 \/ ins = 7 ->
  exists val s',
    execute s ins a b = Ok (val, s') /\
    isWord val /\ isWord (reg s' fO) /\
    reg s' fO * 2 ^ 16 + val = trueResult ins a b mod 2 ^ 32 /\
    (ins = 3 ->
     (reg s' fO = 0xFFFF <-> a < b) /\ (b <= a -> reg s' fO = 0)).
Proof.
  unfold isWord. intros Ha Hb Hins.
  change (2 ^ 16) with 65536. change (2 ^ 32) with 4294967296.
  destruct Hins as [-> | [-> | [-> | ->]]]; unfold execute, trueResult.
  - destruct (overflow_pair s (a + b)) as (Hv & Ho & Hsum & _).
    eexists _, _. split; [reflexivity|].
    repeat split; try apply Hv; try apply Ho; try exact Hsum;
      intros; discriminate.
  - destruct (overflow_pair s (a - b)) as (Hv & Ho & Hsum & Hhi).
    eexists _, _. split; [reflexivity|].
    split; [exact Hv|]. split; [exact Ho|]. split; [exact Hsum|].
    intros _. cbv zeta in Hhi. rewrite Hhi.
    destruct (Z.lt_ge_cases a b) as [Hlt|Hge].
    + assert (E : (a - b) mod 4294967296 = a - b + 4294967296).
      { symmetry. apply Z.mod_unique with (q := -1); lia. }
      rewrite E.
      assert (Q : (a - b + 4294967296) / 65536 = 65535).
      { symmetry. apply Z.div_unique with (r := a - b + 65536); lia. }
      rewrite Q. split; [split; [intros _; exact Hlt|reflexivity]|lia].
    + rewrite (Z.mod_small (a - b)) by lia.
      rewrite (Z.div_small (a - b)) by lia.
      split; [split; [discriminate|lia]|reflexivity].
  - destruct (overflow_pair s (a * b)) as (Hv & Ho & Hsum & _).
    eexists _, _. split; [reflexivity|].
    repeat split; try apply Hv; try apply Ho; try exact Hsum;
      intros; discriminate.
  - destruct (overflow_pair s (Z.shiftl a b)) as (Hv & Ho & Hsum & _).
    rewrite Z.shiftl_mul_pow2 in * by lia.
    eexists _, _. split; [reflexivity|].
    repeat split; try apply Hv; try apply Ho; try exact Hsum;
      intros; discriminate.
Qed.

Lemma overflow_word_is_high_half_witness :
  exists val s',
    execute (boot []) 3 1 2 = Ok (val, s') /\
    isWord val /\ isWord (reg s' fO) /\
    reg s' fO * 2 ^ 16 + val = trueResult 3 1 2 mod 2 ^ 32 /\
    (3 = 3 ->
     (reg s' fO = 0xFFFF <-> 1 < 2) /\ (2 <= 1 -> reg s' fO = 0)).
Proof.
  apply (overflow_word_is_high_half (boot []) 3 1 2);
    [unfold isWord; lia | unfold isWord; lia | right; left; reflexivity].
Defined.

(** * Operand side effects *)

Lemma execute_conditional (s : State) (ins a b : Word) :
  12 <= ins <= 15 ->
  execute s ins a b = Ok (0, if skipTaken ins a b then skip s else s).
Proof.
  intros H.
  assert (C : ins = 12 \/ ins = 13 \/ ins = 14 \/ ins = 15) by lia.
  destruct C as [-> | [-> | [-> | ->]]]; reflexivity.
Qed.

Lemma store_conditional (s : State) (opcode ins a b val : Word)
  (p : pointer) :
  12 <= ins -> store s opcode ins a b val p = (s, None).
Proof.
  intros H. unfold store.
  destruct (Z.leb_spec ins 11); [lia|].
  rewrite andb_false_r. reflexivity.
Qed.

Lemma skip_SP (s : State) : reg (skip s) fSP = reg s fSP.
Proof. unfold skip. rewrite reg_setReg. reflexivity. Qed.

(** POP reads at [SP] and leaves [SP] incremented; PUSH decrements [SP]
    and takes the location at the new [SP]. *)
Lemma translateOperand_POP (s : State) :
  translateOperand s 24 =
  Ok (Ram s (reg s fSP), PRam (reg s fSP), incSP s).
Proof. reflexivity. Qed.

Lemma translateOperand_PUSH (s : State) :
  translateOperand s 26 =
  Ok (Ram s (reg (decSP s) fSP), PRam (reg (decSP s) fSP), decSP s).
Proof. reflexivity. Qed.

(** C5. In every [Step] operand [a] is translated on the state the fetch
    left and operand [b] on the state [a]'s translation left.  Each
    translation of a code in 16..23, 30 or 31 moves [PC] one word on
    (modulo 2^16) and no other code moves it; code 24 reads at [SP] and
    then increments [SP]; code 26 decrements [SP] and then takes the
    location at the new [SP]; no other code changes [SP].  When the
    instruction is a conditional, the step ends in the state the two
    translations left, with [PC] moved further by the skip when the skip
    is taken: the side effects of the operands stay. *)
Theorem operand_translation_effects (s : State) :
  let '(ins, a, b) := decodeOpcode (Ram s (reg s fPC)) in
  exists va pa s1 vb pb s2,
    translateOperand (incPC s) a = Ok (va, pa, s1) /\
    translateOperand s1 b = Ok (vb, pb, s2) /\
    (forall t t' op v p,
        translateOperand t op = Ok (v, p, t') ->
        reg t' fPC =
          (if extraWord op then wrap (reg t fPC + 1) else reg t fPC) /\
        (op = 24 ->
         p = PRam (reg t fSP) /\ v = Ram t (reg t fSP) /\
         reg t' fSP = wrap (reg t fSP + 1)) /\
        (op = 26 ->
         reg t' fSP = wrap (reg t fSP - 1) /\
         p = PRam (reg t' fSP) /\ v = Ram t (reg t' fSP)) /\
        (op <> 24 -> op <> 26 -> reg t' fSP = reg t fSP)) /\
    (12 <= ins ->
     Step s = Ok (if skipTaken ins va vb then skip s2 else s2, None) /\
     reg (skip s2) fSP = reg s2 fSP /\
     reg (skip s2) fPC =
       wrap (reg s2 fPC + wordCount (Ram s2 (reg s2 fPC)))).
Proof.
  destruct (decodeOpcode (Ram s (reg s fPC))) as [[ins a] b] eqn:D.
  destruct (decodeOpcode_bounds _ _ _ _ D) as (Hi & Ha & Hb).
  destruct (translateOperand_total (incPC s) a) as (va & pa & s1 & Ta);
    [lia|].
  destruct (translateOperand_total s1 b) as (vb & pb & s2 & Tb); [lia|].
  exists va, pa, s1, vb, pb, s2.
  split; [exact Ta|]. split; [exact Tb|]. split.
  - intros t t' op v p T.
    destruct (translateOperand_effects _ _ _ _ _ T)
      as (Hram & _ & Hpc & Hsp & _ & Hval & _).
    split; [exact Hpc|]. split; [|split].
    + intros ->. rewrite translateOperand_POP in T.
      injection T as Hv Hp Ht. subst v p t'.
      split; [reflexivity|]. split; [reflexivity|].
      unfold incSP. rewrite reg_setReg. reflexivity.
    + intros ->. rewrite translateOperand_PUSH in T.
      injection T as Hv Hp Ht. subst v p t'.
      split; [|split; reflexivity].
      unfold decSP. rewrite reg_setReg. reflexivity.
    + intros N24 N26. rewrite Hsp.
      destruct (Z.eqb_spec op 24); [contradiction|].
      destruct (Z.eqb_spec op 26); [contradiction|]. reflexivity.
  - intros Hc. split; [|split; [apply skip_SP|apply skip_PC]].
    rewrite (Step_phases s s1 s2
               (if skipTaken ins va vb then skip s2 else s2)
               ins a b va vb 0 pa pb D Ta Tb).
    + rewrite store_conditional by exact Hc. reflexivity.
    + apply execute_conditional. lia.
Qed.

Lemma translateOperand_PC_SP (s s' : State) (op val : Word) (p : pointer) :
  translateOperand s op = Ok (val, p, s') ->
  reg s' fPC = pcAfter op (reg s fPC) /\
  reg s' fSP = spAfter op (reg s fSP).
Proof.
  intros T. apply translateOperand_effects in T.
  destruct T as (_ & _ & Hpc & Hsp & _). split; assumption.
Qed.

(** * Memory protection *)

Lemma protectionCheck_isProtected (regions : list Region)
  (index opcode a b : Word) :
  protectionCheck regions index opcode a b =
  if isProtected_loop regions index
  then Some (mkProtectionError index opcode a b)
  else None.
Proof.
  induction regions as [|r rest IH]; simpl; [reflexivity|].
  destruct (Contains r index); [reflexivity|].
  destruct (index <? Start r); [reflexivity|exact IH].
Qed.

Lemma isProtected_loop_sound (regions : list Region) (index : Word) :
  isProtected_loop regions index = true ->
  exists r, In r regions /\ Contains r index = true.
Proof.
  induction regions as [|r rest IH]; simpl; [discriminate|].
  destruct (Contains r index) eqn:C.
  - intros _. exists r. split; [left; reflexivity|exact C].
  - destruct (index <? Start r); [discriminate|].
    intros H. destruct (IH H) as (r' & Hin & Hc).
    exists r'. split; [right; exact Hin|exact Hc].
Qed.

(** On a list ordered by [Start] the early exit of the loop loses
    nothing: a region that starts above the address cannot contain it,
    nor can any later one. *)
Lemma isProtected_loop_complete (regions : list Region) (index : Word) :
  sortedByStart regions ->
  (exists r, In r regions /\ Contains r index = true) ->
  isProtected_loop regions index = true.
Proof.
  induction regions as [|r rest IH]; simpl.
  - intros _ (r & [] & _).
  - intros [Hle Hsorted] (r' & Hin & Hc).
    destruct (Contains r index) eqn:C; [reflexivity|].
    destruct Hin as [->|Hin]; [congruence|].
    destruct (Z.ltb_spec index (Start r)) as [Hlt|Hge].
    + specialize (Hle r' Hin). unfold Contains in Hc.
      apply andb_true_iff in Hc. destruct Hc as [Hs _].
      apply Z.leb_le in Hs. lia.
    + apply IH; [exact Hsorted|]. exists r'. split; assumption.
Qed.

(** Where the region does not run past the top of memory, [Contains] is
    membership in the half-open range. *)
Lemma Contains_range (r : Region) (address : Word) :
  0 <= Start r -> 0 <= Length r -> Start r + Length r < 65536 ->
  Contains r address = true <->
  Start r <= address < Start r + Length r.
Proof.
  intros Hs Hl Hend. unfold Contains.
  rewrite wrap_small by (unfold isWord; lia).
  rewrite andb_true_iff, Z.leb_le, Z.ltb_lt. reflexivity.
Qed.

Lemma store_fault (s s' : State) (opcode ins a b val : Word) (p : pointer)
  (err : ProtectionError) :
  store s opcode ins a b val p = (s', Some err) ->
  s' = s /\ 1 <= ins <= 11 /\
  p = PRam (Address err) /\
  err = mkProtectionError (Address err) opcode a b /\
  isProtected s (Address err) = true.
Proof.
  unfold store, isProtected. intros H.
  destruct (Z.leb_spec 1 ins); destruct (Z.leb_spec ins 11);
    cbn [andb] in H; try congruence.
  destruct p as [|f|index]; try congruence.
  rewrite protectionCheck_isProtected in H.
  destruct (isProtected_loop (Protected s) index) eqn:P; [|congruence].
  inversion H; subst; clear H. cbn.
  repeat split; try lia; assumption.
Qed.

Lemma store_protected (s : State) (opcode ins a b val index : Word) :
  1 <= ins <= 11 ->
  isProtected s index = true ->
  store s opcode ins a b val (PRam index) =
  (s, Some (mkProtectionError index opcode a b)).
Proof.
  unfold store, isProtected. intros Hins P.
  destruct (Z.leb_spec 1 ins); destruct (Z.leb_spec ins 11); try lia.
  cbn [andb]. rewrite protectionCheck_isProtected, P. reflexivity.
Qed.

(** What the store phase leaves of register [f] and of memory. *)
Lemma store_ok (s s' : State) (opcode ins a b val : Word) (p : pointer) :
  store s opcode ins a b val p = (s', None) ->
  s' = s \/ (1 <= ins <= 11 /\ p <> PNil /\ s' = assign s p val).
Proof.
  unfold store. intros H.
  destruct (Z.leb_spec 1 ins); destruct (Z.leb_spec ins 11);
    cbn [andb] in H; try (left; congruence).
  destruct p as [|f|index].
  - left; congruence.
  - right. split; [lia|]. split; [discriminate|congruence].
  - destruct (protectionCheck _ _ _ _ _); [discriminate|].
    right. split; [lia|]. split; [discriminate|congruence].
Qed.

(** A storing instruction whose target is a protected word of [Ram]
    returns the error and writes nothing, provided the execute phase
    completes (no zero divisor) and the Protected list is ordered. *)
Lemma Step_protection_fault (s s1 s2 : State) (ins a b va vb index : Word)
  (pb : pointer) :
  decodeOpcode (Ram s (reg s fPC)) = (ins, a, b) ->
  1 <= ins <= 11 ->
  translateOperand (incPC s) a = Ok (va, PRam index, s1) ->
  translateOperand s1 b = Ok (vb, pb, s2) ->
  (ins = 5 \/ ins = 6 -> vb <> 0) ->
  sortedByStart (Protected s) ->
  (exists r, In r (Protected s) /\ Contains r index = true) ->
  exists s',
    Step s =
      Ok (s', Some (mkProtectionError index (Ram s (reg s fPC)) va vb)) /\
    Ram s' = Ram s.
Proof.
  intros D Hins Ta Tb Hdiv Hsorted Hin.
  destruct (execute_total s2 ins va vb) as (val & s3 & E); [lia|exact Hdiv|].
  destruct (translateOperand_effects _ _ _ _ _ Ta) as (Ra & Pa & _).
  destruct (translateOperand_effects _ _ _ _ _ Tb) as (Rb & Pb & _).
  destruct (execute_frame _ _ _ _ _ _ E) as (Re & Pe & _).
  exists s3. split.
  - rewrite (Step_phases _ _ _ _ _ _ _ _ _ _ _ _ D Ta Tb E).
    rewrite store_protected; [reflexivity|exact Hins|].
    unfold isProtected. rewrite Pe, Pb, Pa.
    apply isProtected_loop_complete; assumption.
  - rewrite Re, Rb, Ra. reflexivity.
Qed.

(** Reading never consults the Protected list: a translation succeeds
    for every code below 64 and returns the content of the location. *)
Lemma read_ignores_protection (s : State) (op : Word) :
  op < 64 ->
  exists val p s',
    translateOperand s op = Ok (val, p, s') /\
    (forall index, p = PRam index -> val = Ram s index).
Proof.
  intros H. destruct (translateOperand_total s op H) as (val & p & s' & T).
  exists val, p, s'. split; [exact T|].
  intros index ->.
  destruct (translateOperand_effects _ _ _ _ _ T) as (R & _ & _ & _ & _ & V & _).
  rewrite V by discriminate. cbn. rewrite R. reflexivity.
Qed.

(** C3. A storing instruction whose target is a protected word does not
    always return the protection error: [DIV [0x1000], 0] (words 0x81E5,
    0x1000) with [0x1000, 0x1010) protected panics in the execute phase,
    before the store phase and its protection check are reached.  The
    same instruction with a non-zero divisor, and [SET [0x1000], 1],
    return the error with address 0x1000 and leave the word unchanged. *)
Theorem protected_store_after_zero_divisor :
  decodeOpcode 0x81E5 = (5, 30, 32) /\
  isProtected (protectedBoot [0x81E5; 0x1000]) 0x1000 = true /\
  Step (protectedBoot [0x81E5; 0x1000]) =
    Panic "runtime error: integer divide by zero" /\
  (exists s',
      Step (protectedBoot [0x85E5; 0x1000]) =
        Ok (s', Some (mkProtectionError 0x1000 0x85E5 0 1)) /\
      Ram s' 0x1000 = 0) /\
  (exists s',
      Step (protectedBoot [0x85E1; 0x1000]) =
        Ok (s', Some (mkProtectionError 0x1000 0x85E1 0 1)) /\
      Ram s' 0x1000 = 0).
Proof.
  repeat split; try reflexivity; eexists; split; reflexivity.
Qed.

(** C10. When [Step] returns a protection error the state it leaves is
    the state after the execute phase, not the state before the
    instruction: [PC] has advanced past the instruction word and past
    each extra operand word, [SP] keeps the change made by a PUSH or POP
    operand, and memory is as before since the store was not done. *)
Theorem fault_keeps_side_effects (s s' : State) (err : ProtectionError)
  (ins a b : Word) :
  Step s = Ok (s', Some err) ->
  decodeOpcode (Ram s (reg s fPC)) = (ins, a, b) ->
  (exists va s1 vb pb s2 val,
      translateOperand (incPC s) a = Ok (va, PRam (Address err), s1) /\
      translateOperand s1 b = Ok (vb, pb, s2) /\
      execute s2 ins va vb = Ok (val, s')) /\
  reg s' fPC = pcAfter b (pcAfter a (wrap (reg s fPC + 1))) /\
  reg s' fSP = spAfter b (spAfter a (reg s fSP)) /\
  Ram s' = Ram s /\
  (isWord (reg s fPC) -> reg s' fPC <> reg s fPC).
Proof.
  intros H D.
  destruct (Step_inv _ _ _ H)
    as (ins' & a' & b' & va & pa & s1 & vb & pb & s2 & val & s3
        & D' & Ta & Tb & E & St).
  rewrite D in D'. inversion D'; subst ins' a' b'; clear D'.
  destruct (store_fault _ _ _ _ _ _ _ _ _ St) as (Es & Hins & -> & _ & _).
  subst s3.
  destruct (translateOperand_effects _ _ _ _ _ Ta) as (Ra & _).
  destruct (translateOperand_effects _ _ _ _ _ Tb) as (Rb & _).
  destruct (translateOperand_PC_SP _ _ _ _ _ Ta) as (PCa & SPa).
  destruct (translateOperand_PC_SP _ _ _ _ _ Tb) as (PCb & SPb).
  destruct (execute_frame _ _ _ _ _ _ E) as (Re & _ & Hf & Hpc & _).
  assert (PC' : reg s' fPC = pcAfter b (pcAfter a (wrap (reg s fPC + 1)))).
  { rewrite Hpc by lia. rewrite PCb, PCa. unfold incPC.
    rewrite reg_setReg. reflexivity. }
  split; [exists va, s1, vb, pb, s2, val; repeat split; assumption|].
  split; [exact PC'|]. split.
  { rewrite Hf by discriminate. rewrite SPb, SPa. unfold incPC.
    rewrite reg_setReg. reflexivity. }
  split; [rewrite Re, Rb, Ra; reflexivity|].
  intros W. rewrite PC'. unfold isWord in W. unfold pcAfter, wrap.
  destruct (extraWord a), (extraWord b);
    Z.to_euclidean_division_equations; lia.
Qed.

Lemma fault_keeps_side_effects_witness :
  Step pushIntoProtected =
    Ok (pushIntoProtected_after,
        Some (mkProtectionError 0x1000 0x85A1 0 1)) /\
  decodeOpcode (Ram pushIntoProtected (reg pushIntoProtected fPC)) =
    (1, 26, 33) /\
  reg pushIntoProtected_after fPC = pcAfter 33 (pcAfter 26 (wrap (0 + 1))) /\
  reg pushIntoProtected_after fSP = spAfter 33 (spAfter 26 0x1001) /\
  Ram pushIntoProtected_after = Ram pushIntoProtected.
Proof.
  pose proof (fault_keeps_side_effects
                pushIntoProtected pushIntoProtected_after
                (mkProtectionError 0x1000 0x85A1 0 1) 1 26 33
                eq_refl eq_refl) as (_ & Hpc & Hsp & Hram & _).
  repeat split; assumption.
Defined.

(** * The stack *)

Lemma reg_setRam (s : State) (index v : Word) (f : field) :
  reg (setRam s index v) f = reg s f.
Proof. reflexivity. Qed.

Lemma Ram_setRam_same (s : State) (index v : Word) :
  Ram (setRam s index v) index = v.
Proof. cbn. rewrite Z.eqb_refl. reflexivity. Qed.

Lemma Ram_setReg (s : State) (f : field) (v : Word) :
  Ram (setReg s f v) = Ram s.
Proof. reflexivity. Qed.

Lemma store_ram_ok (s s' : State) (opcode ins a b val index : Word) :
  1 <= ins <= 11 ->
  store s opcode ins a b val (PRam index) = (s', None) ->
  s' = setRam s index val.
Proof.
  unfold store. intros Hins H.
  destruct (Z.leb_spec 1 ins); destruct (Z.leb_spec ins 11); try lia.
  cbn [andb] in H.
  destruct (protectionCheck _ _ _ _ _); [discriminate|].
  cbn in H. congruence.
Qed.

Lemma translateOperand_nextWord (s : State) :
  translateOperand s 31 = Ok (Ram s (reg s fPC), PNil, incPC s).
Proof. reflexivity. Qed.

Lemma translateOperand_A (s : State) :
  translateOperand s 0 = Ok (reg s fA, PReg fA, s).
Proof. reflexivity. Qed.

(** Normalising register and memory reads through the state updates. *)
Ltac state_simpl :=
  unfold incPC, incSP, decSP, skip;
  repeat (rewrite ?reg_setRam, ?reg_setReg, ?Ram_setReg; cbn [field_eqb]).

Lemma wrap_dec_inc (x : Z) : isWord x -> wrap (wrap (x - 1) + 1) = x.
Proof.
  unfold isWord, wrap. intros H.
  Z.to_euclidean_division_equations; lia.
Qed.

(** The operand level: the location PUSH yields, once written, is the
    location POP reads, and POP restores the [SP] that PUSH changed. *)
Lemma push_then_pop (s : State) (v : Word) :
  isWord (reg s fSP) ->
  exists old p s1 s2,
    translateOperand s 26 = Ok (old, p, s1) /\
    reg s1 fSP = wrap (reg s fSP - 1) /\
    translateOperand (assign s1 p v) 24 = Ok (v, p, s2) /\
    reg s2 fSP = reg s fSP.
Proof.
  intros W.
  assert (SP1 : reg (decSP s) fSP = wrap (reg s fSP - 1))
    by (unfold decSP; rewrite reg_setReg; reflexivity).
  set (sp := reg (decSP s) fSP) in *.
  exists (Ram s sp), (PRam sp), (decSP s), (incSP (setRam (decSP s) sp v)).
  split; [apply translateOperand_PUSH|].
  split; [exact SP1|].
  split.
  - rewrite translateOperand_POP. cbn [assign].
    rewrite (reg_setRam (decSP s) sp v fSP). fold sp.
    rewrite Ram_setRam_same. reflexivity.
  - unfold incSP. rewrite reg_setReg. cbn [field_eqb].
    rewrite (reg_setRam (decSP s) sp v fSP). fold sp.
    rewrite SP1. apply wrap_dec_inc. exact W.
Qed.

Lemma translateOperand_register (s : State) (op : Word) :
  0 <= op < 8 ->
  translateOperand s op = Ok (reg s (registerOf op), PReg (registerOf op), s) /\
  field_eqb (registerOf op) fSP = false.
Proof.
  intros H.
  assert (C : op = 0 \/ op = 1 \/ op = 2 \/ op = 3 \/
              op = 4 \/ op = 5 \/ op = 6 \/ op = 7) by lia.
  destruct C as [-> | [-> | [-> | [-> | [-> | [-> | [-> | ->]]]]]]];
    split; reflexivity.
Qed.

(** C7. A push [SET PUSH, b] followed directly by a pop [SET r, POP]
    into one of the registers [A] .. [J]: the push leaves [SP] one lower
    modulo 2^16 with the value of [b] at the new [SP], the pop reads
    that value back into [r] and leaves [SP] at its value before the
    push.  ([b] is any operand that is not itself a push or a pop.)
    From the zeroed state, [SET PUSH, 0x1234; SET A, POP] ends with
    [A = 0x1234] and [SP = 0], with [SP = 0xFFFF] in between. *)
Theorem push_pop_round_trip (s sb s1 : State) (b vb r : Word) (pb : pointer) :
  isWord (reg s fSP) ->
  decodeOpcode (Ram s (reg s fPC)) = (1, 26, b) ->
  b <> 24 -> b <> 26 ->
  translateOperand (decSP (incPC s)) b = Ok (vb, pb, sb) ->
  Step s = Ok (s1, None) ->
  decodeOpcode (Ram s1 (reg s1 fPC)) = (1, r, 24) ->
  0 <= r < 8 ->
  reg s1 fSP = wrap (reg s fSP - 1) /\
  Ram s1 (reg s1 fSP) = vb /\
  exists s2,
    Step s1 = Ok (s2, None) /\
    reg s2 (registerOf r) = vb /\
    reg s2 fSP = reg s fSP.
Proof.
  intros W D1 N24 N26 Tb' S1 D2 Hr.
  destruct (Step_inv _ _ _ S1)
    as (ins & a & b0 & va & pa & sa & vb0 & pb0 & sb0 & val & s3
        & D & Ta & Tb & E & St).
  rewrite D1 in D. apply eq_sym in D. injection D as -> -> ->.
  rewrite translateOperand_PUSH in Ta.
  apply Ok_triple_inj in Ta. destruct Ta as (<- & <- & <-).
  rewrite Tb' in Tb.
  apply Ok_triple_inj in Tb. destruct Tb as (<- & <- & <-).
  change (execute ?x 1 ?y ?z) with (Ok (z, x)) in E.
  apply Ok_pair_inj in E. destruct E as (<- & <-).
  apply store_ram_ok in St; [|lia].
  destruct (translateOperand_PC_SP _ _ _ _ _ Tb') as (_ & SPb).
  assert (SPa : reg (decSP (incPC s)) fSP = wrap (reg s fSP - 1))
    by (state_simpl; reflexivity).
  assert (SP1 : reg s1 fSP = wrap (reg s fSP - 1)).
  { subst s1. rewrite reg_setRam, SPb. unfold spAfter.
    destruct (Z.eqb_spec b 24); [contradiction|].
    destruct (Z.eqb_spec b 26); [contradiction|]. exact SPa. }
  assert (R1 : Ram s1 (reg s1 fSP) = vb).
  { rewrite SP1, <- SPa. subst s1. apply Ram_setRam_same. }
  split; [exact SP1|]. split; [exact R1|].
  destruct (translateOperand_register (incPC s1) r Hr) as (Tr & Nsp).
  exists (setReg (incSP (incPC s1)) (registerOf r) vb).
  split.
  - rewrite (Step_phases s1 (incPC s1) (incSP (incPC s1)) (incSP (incPC s1))
               1 r 24 (reg (incPC s1) (registerOf r)) vb vb
               (PReg (registerOf r)) (PRam (reg (incPC s1) fSP)) D2).
    + reflexivity.
    + exact Tr.
    + rewrite translateOperand_POP. state_simpl. rewrite R1. reflexivity.
    + reflexivity.
  - split.
    + rewrite reg_setReg.
      destruct (registerOf r); reflexivity.
    + rewrite reg_setReg, Nsp. state_simpl.
      rewrite SP1. apply wrap_dec_inc. exact W.
Qed.

(** The state between the two instructions of the stack scenario is
    [afterPush]. *)
Lemma push_pop_round_trip_witness :
  isWord (reg (boot [0x7DA1; 0x1234; 0x6001]) fSP) /\
  decodeOpcode 0x7DA1 = (1, 26, 31) /\
  decodeOpcode 0x6001 = (1, 0, 24) /\
  Step (boot [0x7DA1; 0x1234; 0x6001]) = Ok (afterPush, None) /\
  reg afterPush fSP = 0xFFFF /\
  Ram afterPush 0xFFFF = 0x1234 /\
  exists s2,
    Step afterPush = Ok (s2, None) /\
    reg s2 fA = 0x1234 /\
    reg s2 fSP = 0.
Proof.
  assert (W : isWord (reg (boot [0x7DA1; 0x1234; 0x6001]) fSP))
    by (unfold isWord; cbn; lia).
  assert (N24 : 31 <> 24) by lia.
  assert (N26 : 31 <> 26) by lia.
  assert (Hr : 0 <= 0 < 8) by lia.
  destruct (push_pop_round_trip (boot [0x7DA1; 0x1234; 0x6001])
              _ afterPush 31 0x1234 0 PNil
              W eq_refl N24 N26 eq_refl eq_refl eq_refl Hr)
    as (Hsp & Hram & Hpop).
  split; [exact W|]. do 3 (split; [reflexivity|]).
  split; [exact Hsp|]. split; [exact Hram|]. exact Hpop.
Defined.

(** The two instructions run from the zeroed state. *)
Lemma stack_round_trip_scenario :
  exists s2,
    steps 2 (boot [0x7DA1; 0x1234; 0x6001]) = Ok (s2, None) /\
    reg s2 fA = 0x1234 /\ reg s2 fSP = 0 /\ reg s2 fPC = 3.
Proof. eexists. repeat split; reflexivity. Qed.

(** * Scenario: a conditional followed by a three-word instruction *)

(** As the scenario is told, the first step skips to address 4 and the
    second leaves memory and [A] untouched.  It does not go that way. *)
Lemma scenario3_first_step_does_not_skip :
  ~ (exists s1 s2,
        Step (boot [0xC00D; 0x7DE1; 0x1000; 0x0042; 0x8401]) = Ok (s1, None) /\
        reg s1 fPC = 4 /\
        Step s1 = Ok (s2, None) /\
        Ram s2 0x1000 = 0 /\ reg s2 fA = 0 /\ reg s2 fO = 0).
Proof.
  intros (s1 & s2 & H1 & Hpc & _).
  assert (E : match Step (boot [0xC00D; 0x7DE1; 0x1000; 0x0042; 0x8401]) with
              | Ok (s, _) => reg s fPC = 1
              | Panic _ => False
              end) by (vm_compute; reflexivity).
  rewrite H1 in E. rewrite E in Hpc. discriminate.
Qed.

(** C6 (amended). The word 0xC00D decodes to [IFN A, 16]; with [A = 0]
    the operands differ and nothing is skipped: the first step ends with
    [PC = 1].  The second step executes [SET [0x1000], 0x42] and ends
    with [PC = 4] and [Ram[0x1000] = 0x42].  The word 0x8401 decodes to
    [SET A, 1]; after it the state has [Ram[0x1000] = 0x42], [A = 1],
    [O = 0] and [PC = 5]. *)
Theorem scenario3_run :
  decodeOpcode 0xC00D = (13, 0, 48) /\
  decodeOpcode 0x7DE1 = (1, 30, 31) /\
  decodeOpcode 0x8401 = (1, 0, 33) /\
  exists s1 s2 s3,
    Step (boot [0xC00D; 0x7DE1; 0x1000; 0x0042; 0x8401]) = Ok (s1, None) /\
    reg s1 fPC = 1 /\
    Step s1 = Ok (s2, None) /\
    reg s2 fPC = 4 /\ Ram s2 0x1000 = 0x42 /\
    Step s2 = Ok (s3, None) /\
    steps 3 (boot [0xC00D; 0x7DE1; 0x1000; 0x0042; 0x8401]) = Ok (s3, None) /\
    reg s3 fPC = 5 /\ Ram s3 0x1000 = 0x42 /\
    reg s3 fA = 1 /\ reg s3 fO = 0.
Proof.
  repeat (split; [reflexivity|]).
  eexists _, _, _.
  repeat (split; [reflexivity|]). reflexivity.
Qed.

(** * The overflow register as a frame *)

(** [SET O, 1] (word 0x85D1) is a SET and changes [O]. *)
Lemma SET_O_writes_O :
  ~ (forall (s s' : State) (err : option ProtectionError) (ins a b : Word),
        Step s = Ok (s', err) ->
        decodeOpcode (Ram s (reg s fPC)) = (ins, a, b) ->
        leavesO ins = true ->
        reg s' fO = reg s fO).
Proof.
  intros H.
  specialize (H (boot [0x85D1])
                (mkState (Registers.mk 0 0 0 0 0 0 0 0 1 0 1)
                         (ramOf [0x85D1]) [])
                None 1 29 33 eq_refl eq_refl eq_refl).
  discriminate H.
Qed.

Lemma assign_O (s : State) (p : pointer) (v : Word) :
  p <> PReg fO -> reg (assign s p v) fO = reg s fO.
Proof.
  intros N. destruct p as [|f|index]; cbn [assign]; try reflexivity.
  rewrite reg_setReg. destruct f; try reflexivity. contradiction.
Qed.

(** C8 (amended). An instruction whose code is SET, MOD, SHR, AND, BOR,
    XOR or a conditional leaves [O] as it was, unless its operand [a] is
    code 29, the register [O] itself, which a storing instruction
    writes; a conditional leaves [O] as it was in every case. *)
Theorem O_untouched_unless_target (s s' : State)
  (err : option ProtectionError) (ins a b : Word) :
  Step s = Ok (s', err) ->
  decodeOpcode (Ram s (reg s fPC)) = (ins, a, b) ->
  leavesO ins = true ->
  a <> 29 \/ 12 <= ins ->
  reg s' fO = reg s fO.
Proof.
  intros H D L Ha.
  destruct (Step_inv _ _ _ H)
    as (ins' & a' & b' & va & pa & s1 & vb & pb & s2 & val & s3
        & D' & Ta & Tb & E & St).
  rewrite D in D'. apply eq_sym in D'.
  injection D' as -> -> ->.
  destruct (translateOperand_effects _ _ _ _ _ Ta)
    as (_ & _ & _ & _ & Fa & _ & Oa).
  destruct (translateOperand_effects _ _ _ _ _ Tb)
    as (_ & _ & _ & _ & Fb & _ & _).
  destruct (execute_frame _ _ _ _ _ _ E) as (_ & _ & _ & _ & Oe).
  assert (O3 : reg s3 fO = reg s fO).
  { rewrite Oe; try (intros ->; discriminate L).
    rewrite Fb, Fa by discriminate.
    unfold incPC. rewrite reg_setReg. reflexivity. }
  destruct err as [e|].
  - apply store_fault in St. destruct St as (-> & _). exact O3.
  - apply store_ok in St. destruct St as [->|(Hins & _ & ->)]; [exact O3|].
    rewrite assign_O; [exact O3|].
    intros P. apply Oa in P. lia.
Qed.

Lemma O_untouched_unless_target_witness :
  Step (boot [0x8401]) =
    Ok (mkState (Registers.mk 1 0 0 0 0 0 0 0 1 0 0) (ramOf [0x8401]) [],
        None) /\
  decodeOpcode (Ram (boot [0x8401]) (reg (boot [0x8401]) fPC)) = (1, 0, 33) /\
  leavesO 1 = true /\
  (0 <> 29 \/ 12 <= 1) /\
  reg (mkState (Registers.mk 1 0 0 0 0 0 0 0 1 0 0) (ramOf [0x8401]) []) fO =
  reg (boot [0x8401]) fO.
Proof.
  assert (Ha : 0 <> 29 \/ 12 <= 1) by (left; lia).
  repeat (split; [reflexivity|]). split; [exact Ha|].
  exact (O_untouched_unless_target (boot [0x8401]) _ None 1 0 33
           eq_refl eq_refl eq_refl Ha).
Defined.

(** * Further properties of the core *)

(** ** Sixteen-bit values *)

Lemma isWord_land (x : Z) : isWord x <-> Z.land x 65535 = x.
Proof.
  rewrite land_65535. unfold isWord. split.
  - intros H. apply Z.mod_small. exact H.
  - intros <-. apply Z.mod_pos_bound. lia.
Qed.

Lemma isWord_lor (a b : Z) : isWord a -> isWord b -> isWord (Z.lor a b).
Proof.
  rewrite !isWord_land. intros Ha Hb.
  rewrite Z.land_lor_distr_l, Ha, Hb. reflexivity.
Qed.

Lemma isWord_lxor (a b : Z) : isWord a -> isWord b -> isWord (Z.lxor a b).
Proof.
  rewrite !isWord_land. intros Ha Hb.
  rewrite <- Ha at 2. rewrite <- Hb at 2.
  apply Z.bits_inj. intros n.
  rewrite !Z.land_spec, !Z.lxor_spec, !Z.land_spec.
  destruct (Z.testbit a n), (Z.testbit b n), (Z.testbit 65535 n); reflexivity.
Qed.

Lemma isWord_land_l (a b : Z) : isWord a -> isWord b -> isWord (Z.land a b).
Proof.
  rewrite !isWord_land. intros Ha Hb.
  rewrite <- Z.land_assoc, Hb. reflexivity.
Qed.

Lemma isWord_shiftr (a b : Z) : isWord a -> 0 <= b -> isWord (Z.shiftr a b).
Proof.
  unfold isWord. intros Ha Hb. rewrite Z.shiftr_div_pow2 by exact Hb.
  assert (0 < 2 ^ b) by (apply Z.pow_pos_nonneg; lia).
  split.
  - apply Z.div_pos; lia.
  - apply Z.le_lt_trans with a; [|lia].
    apply Z.div_le_upper_bound; [lia|]. nia.
Qed.

Lemma isWord_div (a b : Z) : isWord a -> 0 < b -> isWord (a / b).
Proof.
  unfold isWord. intros Ha Hb. split.
  - apply Z.div_pos; lia.
  - apply Z.le_lt_trans with a; [|lia].
    apply Z.div_le_upper_bound; [lia|]. nia.
Qed.

Lemma isWord_mod (a b : Z) : isWord b -> 0 < b -> isWord (a mod b).
Proof.
  unfold isWord. intros Hb Hpos.
  pose proof (Z.mod_pos_bound a b Hpos). lia.
Qed.

(** ** The 16-bit invariant *)

Lemma wfState_setReg (s : State) (f : field) (v : Word) :
  wfState s -> isWord v -> wfState (setReg s f v).
Proof.
  intros [Hr Hm] Hv. split.
  - intros g. rewrite reg_setReg. destruct (field_eqb f g); [exact Hv|apply Hr].
  - intros i. apply Hm.
Qed.

Lemma wfState_setRam (s : State) (index v : Word) :
  wfState s -> isWord v -> wfState (setRam s index v).
Proof.
  intros [Hr Hm] Hv. split.
  - intros g. apply Hr.
  - intros i. cbn. destruct (i =? index); [exact Hv|apply Hm].
Qed.

Lemma wfState_assign (s : State) (p : pointer) (v : Word) :
  wfState s -> isWord v -> wfState (assign s p v).
Proof.
  intros W Hv. destruct p as [|f|index]; cbn [assign].
  - exact W.
  - apply wfState_setReg; assumption.
  - apply wfState_setRam; assumption.
Qed.

Lemma wfState_deref (s : State) (p : pointer) :
  wfState s -> isWord (deref s p).
Proof.
  intros [Hr Hm]. destruct p as [|f|index]; cbn [deref].
  - unfold isWord. lia.
  - apply Hr.
  - apply Hm.
Qed.

(** The value of an operand without a location is the next word or the
    literal [op - 32]. *)
Lemma translateOperand_nil (s s' : State) (op val : Word) :
  translateOperand s op = Ok (val, PNil, s') ->
  (op = 31 /\ val = Ram s (reg s fPC)) \/
  (32 <= op < 64 /\ val = op - 32 /\ s' = s) \/
  (op < 0 /\ val = wrap (op - 32) /\ s' = s).
Proof.
  intros H. unfold translateOperand in H.
  code_cases op 6%nat; cbn in H;
    try (match type of H with
         | context [if ?c then _ else _] => destruct c eqn:C
         end; cbn in H);
    try discriminate;
    try (apply Z.leb_gt in C; lia);
    apply Ok_triple_inj in H; destruct H as (Hv & _ & Hs);
    first [ left; split; [reflexivity|symmetry; exact Hv]
          | right; left; split; [lia|split;
              [symmetry; exact Hv|symmetry; exact Hs]]
          | right; right; split; [lia|split;
              [symmetry; exact Hv|symmetry; exact Hs]] ].
Qed.

Lemma translateOperand_wf (s s' : State) (op val : Word) (p : pointer) :
  wfState s ->
  translateOperand s op = Ok (val, p, s') ->
  wfState s' /\ isWord val.
Proof.
  intros W T.
  destruct (translateOperand_effects _ _ _ _ _ T)
    as (R & _ & Hpc & Hsp & Hf & Hv & _).
  assert (W' : wfState s').
  { destruct W as [Hr Hm]. split.
    - intros f.
      destruct (field_eqb f fPC) eqn:Epc;
        [apply field_eqb_eq in Epc; subst f|].
      { rewrite Hpc. destruct (extraWord op); [apply wrap_isWord|apply Hr]. }
      destruct (field_eqb f fSP) eqn:Esp;
        [apply field_eqb_eq in Esp; subst f|].
      { rewrite Hsp. destruct (op =? 24); [apply wrap_isWord|].
        destruct (op =? 26); [apply wrap_isWord|apply Hr]. }
      rewrite Hf; [apply Hr| |]; intros ->; discriminate.
    - intros i. rewrite R. apply Hm. }
  split; [exact W'|].
  destruct p as [|f|index].
  - apply translateOperand_nil in T.
    destruct T as [(_ & ->)|[(Hop & -> & _)|(_ & -> & _)]].
    + apply W.
    + unfold isWord. lia.
    + apply wrap_isWord.
  - rewrite Hv by discriminate. apply wfState_deref. exact W'.
  - rewrite Hv by discriminate. apply wfState_deref. exact W'.
Qed.

Lemma wfState_skip (s : State) : wfState s -> wfState (skip s).
Proof. intros W. apply wfState_setReg; [exact W|apply wrap_isWord]. Qed.

Ltac word_tac :=
  first [ apply wrap_isWord
        | assumption
        | apply isWord_lor; assumption
        | apply isWord_lxor; assumption
        | apply isWord_land_l; assumption
        | apply isWord_mod; [assumption|unfold isWord in *; lia]
        | apply isWord_div; [assumption|unfold isWord in *; lia]
        | apply isWord_shiftr; [assumption|unfold isWord in *; lia]
        | unfold isWord; lia ].

Lemma execute_wf (s s' : State) (ins a b val : Word) :
  wfState s -> isWord a -> isWord b ->
  execute s ins a b = Ok (val, s') ->
  wfState s' /\ isWord val.
Proof.
  intros W Ha Hb H.
  code_cases ins 4%nat; unfold execute in H; try discriminate;
    try match type of H with
        | context [if b =? 0 then _ else _] =>
            destruct (Z.eqb_spec b 0); [discriminate|]
        end;
    apply Ok_pair_inj in H; destruct H as (<- & <-);
    (split;
     [ first [ exact W
             | apply wfState_setReg; [exact W|word_tac]
             | match goal with
               | |- context [if ?c then _ else _] => destruct c
               end; [apply wfState_skip|]; exact W ]
     | word_tac ]).
Qed.

Lemma store_wf (s s' : State) (opcode ins a b val : Word) (p : pointer)
  (err : option ProtectionError) :
  wfState s -> isWord val ->
  store s opcode ins a b val p = (s', err) ->
  wfState s'.
Proof.
  intros W Hv H. destruct err as [e|].
  - apply store_fault in H. destruct H as (-> & _). exact W.
  - apply store_ok in H. destruct H as [->|(_ & _ & ->)]; [exact W|].
    apply wfState_assign; assumption.
Qed.

(** X1. [Step] keeps registers and memory 16-bit: from a state in which
    every register and every memory word is below 2^16, a step that
    returns (with or without a protection error) leaves such a state. *)
Theorem Step_preserves_wfState (s s' : State) (err : option ProtectionError) :
  wfState s ->
  Step s = Ok (s', err) ->
  wfState s'.
Proof.
  intros W H.
  destruct (Step_inv _ _ _ H)
    as (ins & a & b & va & pa & s1 & vb & pb & s2 & val & s3
        & D & Ta & Tb & E & St).
  assert (W0 : wfState (incPC s))
    by (apply wfState_setReg; [exact W|apply wrap_isWord]).
  destruct (translateOperand_wf _ _ _ _ _ W0 Ta) as (W1 & Hva).
  destruct (translateOperand_wf _ _ _ _ _ W1 Tb) as (W2 & Hvb).
  destruct (execute_wf _ _ _ _ _ _ W2 Hva Hvb E) as (W3 & Hval).
  exact (store_wf _ _ _ _ _ _ _ _ _ W3 Hval St).
Qed.

Lemma ramOf_isWord (words : list Word) :
  Forall isWord words -> forall i, isWord (ramOf words i).
Proof.
  intros F i. unfold ramOf. destruct (i <? 0); [unfold isWord; lia|].
  destruct (nth_in_or_default (Z.to_nat i) words 0) as [Hin| ->].
  - rewrite Forall_forall in F. apply F. exact Hin.
  - unfold isWord. lia.
Qed.

Lemma wfState_boot (words : list Word) :
  Forall isWord words -> wfState (boot words).
Proof.
  intros F. split.
  - intros f. destruct f; cbn; unfold isWord; lia.
  - intros i. apply ramOf_isWord. exact F.
Qed.

Lemma Step_preserves_wfState_witness :
  wfState (boot [0x7C01; 0x0030]) /\
  Step (boot [0x7C01; 0x0030]) =
    Ok (mkState (Registers.mk 0x30 0 0 0 0 0 0 0 2 0 0)
                (ramOf [0x7C01; 0x0030]) [], None) /\
  wfState (mkState (Registers.mk 0x30 0 0 0 0 0 0 0 2 0 0)
                   (ramOf [0x7C01; 0x0030]) []).
Proof.
  assert (W : wfState (boot [0x7C01; 0x0030])).
  { apply wfState_boot. repeat constructor; unfold isWord; lia. }
  split; [exact W|]. split; [reflexivity|].
  exact (Step_preserves_wfState (boot [0x7C01; 0x0030]) _ None W eq_refl).
Defined.

Lemma Ok_triple_inj_pair {T U V : Type} (x x' : T) (y y' : U) (z z' : V) :
  (x, y, z) = (x', y', z') -> x = x' /\ y = y' /\ z = z'.
Proof. intros H. inversion H. repeat split; reflexivity. Qed.

(** ** The instruction word *)

(** X2. Decoding loses nothing: a 16-bit word decodes to the fields
    [(ins, a, b)] exactly when the fields are in range (4, 6 and 6 bits)
    and the word is [ins + 16 a + 1024 b]. *)
Theorem decodeOpcode_assemble (w ins a b : Word) :
  isWord w ->
  decodeOpcode w = (ins, a, b) <->
  0 <= ins < 16 /\ 0 <= a < 64 /\ 0 <= b < 64 /\ w = assemble ins a b.
Proof.
  unfold isWord, assemble, decodeOpcode. intros W.
  rewrite land_15, !land_63, !Z.shiftr_div_pow2 by lia.
  change (2 ^ 4) with 16. change (2 ^ 10) with 1024.
  split.
  - intros H. apply Ok_triple_inj_pair in H. destruct H as (<- & <- & <-).
    Z.to_euclidean_division_equations. lia.
  - intros (Hi & Ha & Hb & ->).
    repeat apply f_equal2; Z.to_euclidean_division_equations; lia.
Qed.

Lemma decodeOpcode_assemble_witness :
  isWord 0x7DE1 /\
  (decodeOpcode 0x7DE1 = (1, 30, 31) <->
   0 <= 1 < 16 /\ 0 <= 30 < 64 /\ 0 <= 31 < 64 /\ 0x7DE1 = assemble 1 30 31).
Proof.
  assert (W : isWord 0x7DE1) by (unfold isWord; lia).
  split; [exact W|]. exact (decodeOpcode_assemble 0x7DE1 1 30 31 W).
Defined.

(** ** Regions *)

(** X3. [Contains] is membership in the half-open range
    [Start, Start+Length) only for a region that ends below the top of
    memory: the end is computed in 16 bits, so a region with
    [Start + Length >= 0x10000] contains no address at all. *)
Theorem Contains_iff_range_below_top (r : Region) (address : Word) :
  isWord (Start r) -> isWord (Length r) ->
  Contains r address = true <->
  Start r <= address < Start r + Length r /\ Start r + Length r < 65536.
Proof.
  unfold isWord, Contains, wrap. intros Hs Hl.
  rewrite andb_true_iff, Z.leb_le, Z.ltb_lt.
  destruct (Z.lt_ge_cases (Start r + Length r) 65536) as [Hlt|Hge].
  - rewrite Z.mod_small by lia. lia.
  - assert (E : (Start r + Length r) mod 65536 = Start r + Length r - 65536).
    { symmetry. apply Z.mod_unique with (q := 1); lia. }
    rewrite E. lia.
Qed.

Lemma Contains_iff_range_below_top_witness :
  isWord (Start (mkRegion 0xFFF0 0x10)) /\
  isWord (Length (mkRegion 0xFFF0 0x10)) /\
  (Contains (mkRegion 0xFFF0 0x10) 0xFFF8 = true <->
   0xFFF0 <= 0xFFF8 < 0xFFF0 + 0x10 /\ 0xFFF0 + 0x10 < 65536).
Proof.
  assert (Hs : isWord (Start (mkRegion 0xFFF0 0x10)))
    by (unfold isWord; cbn; lia).
  assert (Hl : isWord (Length (mkRegion 0xFFF0 0x10)))
    by (unfold isWord; cbn; lia).
  split; [exact Hs|]. split; [exact Hl|].
  exact (Contains_iff_range_below_top (mkRegion 0xFFF0 0x10) 0xFFF8 Hs Hl).
Defined.

(** X4. [Union] does not depend on the order of its arguments. *)
Theorem Union_comm (r r2 : Region) : Union r r2 = Union r2 r.
Proof.
  unfold Union.
  destruct (Z.ltb_spec (Start r2) (Start r));
    destruct (Z.ltb_spec (Start r) (Start r2)); try lia;
    destruct (Z.ltb_spec (End r) (End r2));
    destruct (Z.ltb_spec (End r2) (End r)); try lia;
    f_equal; try lia; f_equal; lia.
Qed.

(** X5. For two regions that end below the top of memory, [Union] starts
    at the lower start, ends at the higher end, and contains every
    address that either region contains. *)
Theorem Union_covers (r r2 : Region) :
  0 <= Start r -> 0 <= Length r -> Start r + Length r < 65536 ->
  0 <= Start r2 -> 0 <= Length r2 -> Start r2 + Length r2 < 65536 ->
  Start (Union r r2) = Z.min (Start r) (Start r2) /\
  Start (Union r r2) + Length (Union r r2) =
    Z.max (Start r + Length r) (Start r2 + Length r2) /\
  forall address,
    Contains r address = true \/ Contains r2 address = true ->
    Contains (Union r r2) address = true.
Proof.
  intros Hs Hl He Hs2 Hl2 He2.
  assert (E1 : End r = Start r + Length r)
    by (unfold End; apply wrap_small; unfold isWord; lia).
  assert (E2 : End r2 = Start r2 + Length r2)
    by (unfold End; apply wrap_small; unfold isWord; lia).
  assert (S : Start (Union r r2) = Z.min (Start r) (Start r2)).
  { unfold Union. cbn. destruct (Z.ltb_spec (Start r2) (Start r)); lia. }
  assert (L : Start (Union r r2) + Length (Union r r2) =
              Z.max (Start r + Length r) (Start r2 + Length r2)).
  { rewrite S. unfold Union. cbn. rewrite E1, E2.
    destruct (Z.ltb_spec (Start r2) (Start r));
      destruct (Z.ltb_spec (Start r + Length r) (Start r2 + Length r2));
      rewrite wrap_small by (unfold isWord; lia); lia. }
  split; [exact S|]. split; [exact L|].
  intros address H.
  assert (C : forall x,
             0 <= Start x -> 0 <= Length x -> Start x + Length x < 65536 ->
             (Contains x address = true <->
              Start x <= address < Start x + Length x)).
  { intros x H1 H2 H3. unfold Contains.
    rewrite wrap_small by (unfold isWord; lia).
    rewrite andb_true_iff, Z.leb_le, Z.ltb_lt. reflexivity. }
  rewrite (C r), (C r2) in H by assumption.
  apply C; lia.
Qed.

Lemma Union_covers_witness :
  Start (Union (mkRegion 0x1000 0x10) (mkRegion 0x1008 0x20)) =
    Z.min 0x1000 0x1008 /\
  Start (Union (mkRegion 0x1000 0x10) (mkRegion 0x1008 0x20)) +
  Length (Union (mkRegion 0x1000 0x10) (mkRegion 0x1008 0x20)) =
    Z.max (0x1000 + 0x10) (0x1008 + 0x20) /\
  forall address,
    Contains (mkRegion 0x1000 0x10) address = true \/
    Contains (mkRegion 0x1008 0x20) address = true ->
    Contains (Union (mkRegion 0x1000 0x10) (mkRegion 0x1008 0x20)) address
    = true.
Proof.
  apply (Union_covers (mkRegion 0x1000 0x10) (mkRegion 0x1008 0x20));
    cbn; lia.
Defined.

(** ** Operand translation *)

(** Case analysis on the code of a translation that returned. *)
Ltac operand_cases op H :=
  unfold translateOperand in H;
  code_cases op 6%nat; cbn in H;
  try (match type of H with
       | context [if ?c then _ else _] => destruct c eqn:?C
       end; cbn in H);
  try discriminate;
  try (match goal with
       | C : (64 <=? _) = false |- _ => apply Z.leb_gt in C; lia
       end).

(** Which kind of location each operand code yields. *)
Lemma translateOperand_pointer (s s' : State) (op val : Word) (p : pointer) :
  translateOperand s op = Ok (val, p, s') ->
  isRamPointer p = memoryOperand op /\
  (p = PNil <-> 31 <= op \/ op < 0) /\
  (p = PReg fPC <-> op = 28).
Proof.
  intros H. operand_cases op H;
    apply Ok_triple_inj in H; destruct H as (_ & <- & _);
    (split; [reflexivity|]);
    (split; (split; [intros E; try discriminate E; lia
                    |intros E; try reflexivity; lia])).
Qed.

(** X6. A translation never writes memory or the Protected list and
    changes no register other than [PC] and [SP]; an operand code that
    neither reads a next word nor is POP or PUSH leaves the whole state
    as it was. *)
Theorem translateOperand_frame (s s' : State) (op val : Word) (p : pointer) :
  translateOperand s op = Ok (val, p, s') ->
  Ram s' = Ram s /\ Protected s' = Protected s /\
  (forall f, f <> fPC -> f <> fSP -> reg s' f = reg s f) /\
  (extraWord op = false -> op <> 24 -> op <> 26 -> s' = s).
Proof.
  intros H.
  destruct (translateOperand_effects _ _ _ _ _ H) as (R & P & _ & _ & F & _).
  split; [exact R|]. split; [exact P|]. split; [exact F|].
  intros E N24 N26. operand_cases op H;
    try discriminate E; try lia;
    apply Ok_triple_inj in H; destruct H as (_ & _ & <-); reflexivity.
Qed.

Lemma translateOperand_frame_witness :
  translateOperand (boot [0x7C01; 0x0030]) 24 =
    Ok (0x7C01, PRam 0, incSP (boot [0x7C01; 0x0030])) /\
  Ram (incSP (boot [0x7C01; 0x0030])) = Ram (boot [0x7C01; 0x0030]) /\
  Protected (incSP (boot [0x7C01; 0x0030])) =
    Protected (boot [0x7C01; 0x0030]) /\
  (forall f, f <> fPC -> f <> fSP ->
             reg (incSP (boot [0x7C01; 0x0030])) f =
             reg (boot [0x7C01; 0x0030]) f).
Proof.
  split; [reflexivity|].
  destruct (translateOperand_frame (boot [0x7C01; 0x0030]) _ 24 0x7C01
              (PRam 0) eq_refl) as (R & P & F & _).
  split; [exact R|]. split; [exact P|exact F].
Defined.

(** ** Memory protection *)

(** X7. On a Protected list ordered by [Start], [isProtected] holds of an
    address exactly when some region of the list contains it. *)
Theorem isProtected_iff_contained (s : State) (address : Word) :
  sortedByStart (Protected s) ->
  isProtected s address = true <->
  exists r, In r (Protected s) /\ Contains r address = true.
Proof.
  intros Hs. unfold isProtected. split.
  - apply isProtected_loop_sound.
  - apply isProtected_loop_complete. exact Hs.
Qed.

Lemma isProtected_iff_contained_witness :
  sortedByStart (Protected (protectedBoot [])) /\
  (isProtected (protectedBoot []) 0x1005 = true <->
   exists r, In r (Protected (protectedBoot [])) /\
             Contains r 0x1005 = true).
Proof.
  assert (Hs : sortedByStart (Protected (protectedBoot []))).
  { cbn. split; [intros r2 []|exact I]. }
  split; [exact Hs|].
  exact (isProtected_iff_contained (protectedBoot []) 0x1005 Hs).
Defined.

Lemma Step_Protected (s s' : State) (err : option ProtectionError) :
  Step s = Ok (s', err) -> Protected s' = Protected s.
Proof.
  intros H.
  destruct (Step_inv _ _ _ H)
    as (ins & a & b & va & pa & s1 & vb & pb & s2 & val & s3
        & D & Ta & Tb & E & St).
  destruct (translateOperand_effects _ _ _ _ _ Ta) as (_ & Pa & _).
  destruct (translateOperand_effects _ _ _ _ _ Tb) as (_ & Pb & _).
  destruct (execute_frame _ _ _ _ _ _ E) as (_ & Pe & _).
  assert (P3 : Protected s3 = Protected s) by (rewrite Pe, Pb, Pa; reflexivity).
  destruct err as [e|].
  - apply store_fault in St. destruct St as (-> & _). exact P3.
  - apply store_ok in St. destruct St as [->|(_ & _ & ->)]; [exact P3|].
    destruct pa; exact P3.
Qed.

(** X8. [Step] reports a protection error only for a store to memory
    that [isProtected] forbids: the instruction code is in 1..11,
    operand [a] is one of the memory operand codes, the address in the
    error is protected, and the error carries the instruction word. *)
Theorem fault_only_on_protected_store (s s' : State) (err : ProtectionError)
  (ins a b : Word) :
  Step s = Ok (s', Some err) ->
  decodeOpcode (Ram s (reg s fPC)) = (ins, a, b) ->
  1 <= ins <= 11 /\
  memoryOperand a = true /\
  isProtected s (Address err) = true /\
  Opcode err = Ram s (reg s fPC).
Proof.
  intros H D.
  destruct (Step_inv _ _ _ H)
    as (ins' & a' & b' & va & pa & s1 & vb & pb & s2 & val & s3
        & D' & Ta & Tb & E & St).
  rewrite D in D'. apply Ok_triple_inj_pair in D'.
  destruct D' as (<- & <- & <-).
  pose proof (Step_Protected _ _ _ H) as P.
  destruct (store_fault _ _ _ _ _ _ _ _ _ St) as (Es & Hins & Hp & He & Hprot).
  subst s3.
  destruct (translateOperand_pointer _ _ _ _ _ Ta) as (K & _).
  rewrite Hp in K. cbn in K.
  split; [exact Hins|]. split; [symmetry; exact K|]. split.
  - unfold isProtected in *. rewrite <- P. exact Hprot.
  - rewrite He. reflexivity.
Qed.

Lemma fault_only_on_protected_store_witness :
  Step pushIntoProtected =
    Ok (pushIntoProtected_after,
        Some (mkProtectionError 0x1000 0x85A1 0 1)) /\
  1 <= 1 <= 11 /\
  memoryOperand 26 = true /\
  isProtected pushIntoProtected 0x1000 = true /\
  0x85A1 = Ram pushIntoProtected (reg pushIntoProtected fPC).
Proof.
  split; [reflexivity|].
  exact (fault_only_on_protected_store pushIntoProtected
           pushIntoProtected_after (mkProtectionError 0x1000 0x85A1 0 1)
           1 26 33 eq_refl eq_refl).
Defined.

(** ** What a step writes *)

(** X9. A step writes at most one word of memory, the word operand [a]
    designates, and never changes the Protected list; a step that
    returns a protection error, or whose operand [a] does not designate
    memory, or whose instruction code is 0 or a conditional, writes no
    memory at all. *)
Theorem Step_memory_frame (s s1 s' : State) (err : option ProtectionError)
  (ins a b va : Word) (pa : pointer) :
  Step s = Ok (s', err) ->
  decodeOpcode (Ram s (reg s fPC)) = (ins, a, b) ->
  translateOperand (incPC s) a = Ok (va, pa, s1) ->
  Protected s' = Protected s /\
  (forall i, pa <> PRam i -> Ram s' i = Ram s i) /\
  (err <> None \/ memoryOperand a = false \/ ins = 0 \/ 12 <= ins ->
   Ram s' = Ram s).
Proof.
  intros H D Ta.
  split; [exact (Step_Protected _ _ _ H)|].
  destruct (Step_inv _ _ _ H)
    as (ins' & a' & b' & va' & pa' & s1' & vb & pb & s2 & val & s3
        & D' & Ta' & Tb & E & St).
  rewrite D in D'. apply Ok_triple_inj_pair in D'.
  destruct D' as (<- & <- & <-).
  rewrite Ta in Ta'. apply Ok_triple_inj in Ta'.
  destruct Ta' as (<- & <- & <-).
  destruct (translateOperand_effects _ _ _ _ _ Ta) as (Ra & _).
  destruct (translateOperand_effects _ _ _ _ _ Tb) as (Rb & _).
  destruct (execute_frame _ _ _ _ _ _ E) as (Re & _).
  assert (R3 : Ram s3 = Ram s) by (rewrite Re, Rb, Ra; reflexivity).
  destruct (translateOperand_pointer _ _ _ _ _ Ta) as (K & _).
  split.
  - intros i Hi. destruct err as [e|].
    + apply store_fault in St. destruct St as (-> & _). rewrite R3. reflexivity.
    + apply store_ok in St. destruct St as [->|(_ & _ & ->)];
        [rewrite R3; reflexivity|].
      destruct pa as [|f|index]; cbn [assign];
        try (change (Ram s3 i = Ram s i); rewrite R3; reflexivity).
      cbn. destruct (Z.eqb_spec i index) as [->|_];
        [contradiction Hi; reflexivity|rewrite R3; reflexivity].
  - intros C. destruct err as [e|].
    + apply store_fault in St. destruct St as (-> & _). exact R3.
    + destruct C as [C|[C|C]]; [contradiction C; reflexivity| |].
      * apply store_ok in St. destruct St as [->|(_ & _ & ->)]; [exact R3|].
        rewrite C in K. destruct pa; try discriminate K; exact R3.
      * apply store_ok in St. destruct St as [->|(Hins & _ & _)];
          [exact R3|lia].
Qed.

Lemma Step_memory_frame_witness :
  Step (boot [0x7DE1; 0x1000; 0x0042]) =
    Ok (mkState (Registers.mk 0 0 0 0 0 0 0 0 3 0 0)
                (fun i => if i =? 0x1000 then 0x42
                          else ramOf [0x7DE1; 0x1000; 0x0042] i) [],
        None) /\
  forall i, PRam 0x1000 <> PRam i ->
    (if i =? 0x1000 then 0x42 else ramOf [0x7DE1; 0x1000; 0x0042] i) =
    ramOf [0x7DE1; 0x1000; 0x0042] i.
Proof.
  split; [reflexivity|].
  exact (proj1 (proj2
    (Step_memory_frame (boot [0x7DE1; 0x1000; 0x0042]) _ _ None
       1 30 31 0 (PRam 0x1000) eq_refl eq_refl eq_refl))).
Defined.

(** X10. Nothing is stored by an instruction whose code is 0 or a
    conditional, nor by one whose operand [a] is a literal (code 31 or
    above): the step returns no error, memory is unchanged, and the
    registers other than [PC], [SP] and [O] are unchanged; for code 0 and
    the conditionals [O] is unchanged as well. *)
Theorem nothing_stored (s s' : State) (err : option ProtectionError)
  (ins a b : Word) :
  Step s = Ok (s', err) ->
  decodeOpcode (Ram s (reg s fPC)) = (ins, a, b) ->
  ins = 0 \/ 12 <= ins \/ 31 <= a ->
  err = None /\
  Ram s' = Ram s /\
  (forall f, f <> fPC -> f <> fSP -> f <> fO -> reg s' f = reg s f) /\
  (ins = 0 \/ 12 <= ins -> reg s' fO = reg s fO).
Proof.
  intros H D C.
  destruct (Step_inv _ _ _ H)
    as (ins' & a' & b' & va & pa & s1 & vb & pb & s2 & val & s3
        & D' & Ta & Tb & E & St).
  rewrite D in D'. apply Ok_triple_inj_pair in D'.
  destruct D' as (<- & <- & <-).
  destruct (translateOperand_effects _ _ _ _ _ Ta)
    as (Ra & _ & _ & _ & Fa & _).
  destruct (translateOperand_effects _ _ _ _ _ Tb)
    as (Rb & _ & _ & _ & Fb & _).
  destruct (execute_frame _ _ _ _ _ _ E) as (Re & _ & Fe & _ & Oe).
  destruct (translateOperand_pointer _ _ _ _ _ Ta) as (_ & Nil & _).
  assert (S3 : s' = s3 /\ err = None).
  { unfold store in St.
    destruct C as [->|[C|C]].
    - cbn in St. inversion St. split; reflexivity.
    - destruct (Z.leb_spec ins 11); [lia|].
      rewrite andb_false_r in St. inversion St. split; reflexivity.
    - assert (pa = PNil) by (apply Nil; left; exact C). subst pa.
      destruct ((1 <=? ins) && (ins <=? 11)); inversion St;
        split; reflexivity. }
  destruct S3 as (-> & ->).
  split; [reflexivity|]. split; [rewrite Re, Rb, Ra; reflexivity|].
  assert (Inc : forall f, f <> fPC -> reg (incPC s) f = reg s f).
  { intros f Hf. unfold incPC. rewrite reg_setReg.
    destruct f; try reflexivity. contradiction Hf; reflexivity. }
  split.
  - intros f Hpc Hsp Ho. rewrite Fe, Fb, Fa by assumption.
    apply Inc. exact Hpc.
  - intros C'. rewrite Oe by lia. rewrite Fb, Fa by discriminate.
    apply Inc. discriminate.
Qed.

Lemma nothing_stored_witness :
  Step (boot [0x800D; 0x7DE1; 0x1000; 0x0042; 0x8401]) =
    Ok (mkState (Registers.mk 0 0 0 0 0 0 0 0 3 0 0)
                (ramOf [0x800D; 0x7DE1; 0x1000; 0x0042; 0x8401]) [],
        None) /\
  decodeOpcode 0x800D = (13, 0, 32) /\
  (13 = 0 \/ 12 <= 13 \/ 31 <= 0) /\
  Ram (mkState (Registers.mk 0 0 0 0 0 0 0 0 3 0 0)
               (ramOf [0x800D; 0x7DE1; 0x1000; 0x0042; 0x8401]) []) =
  Ram (boot [0x800D; 0x7DE1; 0x1000; 0x0042; 0x8401]).
Proof.
  assert (C : 13 = 0 \/ 12 <= 13 \/ 31 <= 0) by (right; left; lia).
  split; [reflexivity|]. split; [reflexivity|]. split; [exact C|].
  exact (proj1 (proj2
    (nothing_stored (boot [0x800D; 0x7DE1; 0x1000; 0x0042; 0x8401]) _ None
       13 0 32 eq_refl eq_refl C))).
Defined.

Lemma Ok_inj {T : Type} (x y : T) : Ok x = Ok y -> x = y.
Proof. intros H. inversion H. reflexivity. Qed.

Lemma store_done (s s' : State) (opcode ins a b val : Word) (p : pointer) :
  1 <= ins <= 11 -> p <> PNil ->
  store s opcode ins a b val p = (s', None) ->
  s' = assign s p val.
Proof.
  unfold store. intros Hins Hp H.
  destruct (Z.leb_spec 1 ins); destruct (Z.leb_spec ins 11); try lia.
  cbn [andb] in H. destruct p as [|f|index].
  - contradiction Hp; reflexivity.
  - congruence.
  - destruct (protectionCheck _ _ _ _ _); [discriminate|]. congruence.
Qed.

(** X11. A storing instruction (code 1..11) that returns without error
    leaves the computed value in the location operand [a] designates,
    register or memory word; for SET that value is the value of operand
    [b]. *)
Theorem store_reaches_target (s s1 s2 s3 s' : State)
  (ins a b va vb val : Word) (pa pb : pointer) :
  decodeOpcode (Ram s (reg s fPC)) = (ins, a, b) ->
  translateOperand (incPC s) a = Ok (va, pa, s1) ->
  translateOperand s1 b = Ok (vb, pb, s2) ->
  execute s2 ins va vb = Ok (val, s3) ->
  1 <= ins <= 11 ->
  pa <> PNil ->
  Step s = Ok (s', None) ->
  deref s' pa = val /\ (ins = 1 -> val = vb).
Proof.
  intros D Ta Tb E Hins Hp H.
  rewrite (Step_phases _ _ _ _ _ _ _ _ _ _ _ _ D Ta Tb E) in H.
  apply Ok_inj in H. apply store_done in H; [|exact Hins|exact Hp].
  subst s'. split.
  - destruct pa as [|f|index]; [contradiction Hp; reflexivity| |].
    + cbn [assign deref]. rewrite reg_setReg.
      destruct f; reflexivity.
    + cbn [assign deref]. apply Ram_setRam_same.
  - intros ->. unfold execute in E. apply Ok_pair_inj in E.
    destruct E as (<- & _). reflexivity.
Qed.

Lemma store_reaches_target_witness :
  exists s',
    Step (boot [0x7DC1; 0x0008]) = Ok (s', None) /\
    deref s' (PReg fPC) = 8.
Proof.
  eexists. split; [reflexivity|].
  assert (Hins : 1 <= 1 <= 11) by lia.
  assert (Hp : PReg fPC <> PNil) by discriminate.
  exact (proj1
    (store_reaches_target (boot [0x7DC1; 0x0008]) _ _ _ _
       1 28 31 1 8 8 (PReg fPC) PNil
       eq_refl eq_refl eq_refl eq_refl Hins Hp eq_refl)).
Defined.

(** ** The program counter *)

(** X12. After an instruction with code 0..11 whose operand [a] is not
    [PC] itself, [PC] has advanced (modulo 2^16) by the length of the
    instruction: one word, plus one for each operand with a next word
    (codes 16..23, 30, 31). *)
Theorem PC_advances_by_instruction_length (s s' : State)
  (err : option ProtectionError) (ins a b : Word) :
  Step s = Ok (s', err) ->
  decodeOpcode (Ram s (reg s fPC)) = (ins, a, b) ->
  ins <= 11 -> a <> 28 ->
  reg s' fPC = wrap (reg s fPC + instructionWords a b).
Proof.
  intros H D Hins Ha.
  destruct (Step_inv _ _ _ H)
    as (ins' & a' & b' & va & pa & s1 & vb & pb & s2 & val & s3
        & D' & Ta & Tb & E & St).
  rewrite D in D'. apply Ok_triple_inj_pair in D'.
  destruct D' as (<- & <- & <-).
  destruct (translateOperand_PC_SP _ _ _ _ _ Ta) as (PCa & _).
  destruct (translateOperand_PC_SP _ _ _ _ _ Tb) as (PCb & _).
  destruct (execute_frame _ _ _ _ _ _ E) as (_ & _ & _ & PCe & _).
  destruct (translateOperand_pointer _ _ _ _ _ Ta) as (_ & _ & Kpc).
  assert (PC3 : reg s3 fPC = wrap (reg s fPC + instructionWords a b)).
  { rewrite PCe by lia. rewrite PCb, PCa. unfold incPC.
    rewrite reg_setReg. cbn [field_eqb].
    unfold pcAfter, instructionWords, wrap.
    destruct (extraWord a), (extraWord b);
      Z.to_euclidean_division_equations; lia. }
  destruct err as [e|].
  - apply store_fault in St. destruct St as (-> & _). exact PC3.
  - apply store_ok in St. destruct St as [->|(_ & _ & ->)]; [exact PC3|].
    destruct pa as [|f|index]; cbn [assign]; try exact PC3.
    rewrite reg_setReg. destruct (field_eqb f fPC) eqn:Ef; [|exact PC3].
    apply field_eqb_eq in Ef. subst f.
    contradiction Ha. apply Kpc. reflexivity.
Qed.

Lemma PC_advances_by_instruction_length_witness :
  Step (boot [0x7DE1; 0x1000; 0x0042]) =
    Ok (mkState (Registers.mk 0 0 0 0 0 0 0 0 3 0 0)
                (fun i => if i =? 0x1000 then 0x42
                          else ramOf [0x7DE1; 0x1000; 0x0042] i) [],
        None) /\
  decodeOpcode 0x7DE1 = (1, 30, 31) /\
  3 = wrap (0 + instructionWords 30 31).
Proof.
  assert (Hins : 1 <= 11) by lia.
  assert (Ha : 30 <> 28) by lia.
  split; [reflexivity|]. split; [reflexivity|].
  exact (PC_advances_by_instruction_length
           (boot [0x7DE1; 0x1000; 0x0042]) _ None 1 30 31
           eq_refl eq_refl Hins Ha).
Defined.

(** X13. [wordCount] is one plus the number of operands with code 31.
    It is therefore between 1 and the length of the instruction, and
    equals that length exactly when no operand has a code in 16..23 or
    30. *)
Theorem wordCount_against_length (w ins a b : Word) :
  decodeOpcode w = (ins, a, b) ->
  wordCount w = 1 + (if a =? 31 then 1 else 0) + (if b =? 31 then 1 else 0) /\
  1 <= wordCount w <= instructionWords a b /\
  instructionWords a b <= 3 /\
  (wordCount w = instructionWords a b <->
   (extraWord a = true -> a = 31) /\ (extraWord b = true -> b = 31)).
Proof.
  intros D. rewrite wordCount_value, D.
  unfold instructionWords, extraWord.
  destruct (Z.eqb_spec a 31) as [->|Na]; destruct (Z.eqb_spec b 31) as [->|Nb];
    cbn [Z.leb Z.eqb Z.compare Pos.compare Pos.compare_cont andb orb Pos.eqb];
    repeat rewrite orb_false_r;
    repeat match goal with
           | |- context [(16 <=? ?x) && (?x <=? 23) || (?x =? 30)] =>
               destruct ((16 <=? x) && (x <=? 23) || (x =? 30))
           end;
    (split; [reflexivity|]); (split; [lia|]); (split; [lia|]);
    (split; [intros E; try lia; split; intros; (reflexivity || assumption || discriminate)
            |intros (Ea & Eb); try reflexivity;
             try (specialize (Ea eq_refl); lia);
             try (specialize (Eb eq_refl); lia)]).
Qed.

Lemma wordCount_against_length_witness :
  decodeOpcode 0x7DE1 = (1, 30, 31) /\
  wordCount 0x7DE1 = 1 + 0 + 1 /\
  instructionWords 30 31 = 3.
Proof.
  destruct (wordCount_against_length 0x7DE1 1 30 31 eq_refl) as (V & _).
  split; [reflexivity|]. split; [exact V|reflexivity].
Defined.

(** ** Division *)

(** X14. With a non-zero divisor DIV leaves the quotient as the value to
    store and the remainder in [O], MOD leaves that same remainder as
    the value and does not touch the state; quotient and remainder
    satisfy [a = b * q + r] with [0 <= r < b]. *)
Theorem DIV_MOD_quotient_remainder (s : State) (a b : Word) :
  isWord a -> isWord b -> b <> 0 ->
  exists q r,
    execute s 5 a b = Ok (q, setReg s fO r) /\
    execute s 6 a b = Ok (r, s) /\
    a = b * q + r /\ 0 <= r < b /\ isWord q.
Proof.
  intros Ha Hb Nz. exists (a / b), (a mod b).
  unfold execute. destruct (Z.eqb_spec b 0); [contradiction|].
  split; [reflexivity|]. split; [reflexivity|].
  assert (Hpos : 0 < b) by (unfold isWord in Hb; lia).
  split; [apply Z.div_mod; lia|].
  split; [apply Z.mod_pos_bound; exact Hpos|].
  apply isWord_div; assumption.
Qed.

Lemma DIV_MOD_quotient_remainder_witness :
  exists q r,
    execute (boot []) 5 17 5 = Ok (q, setReg (boot []) fO r) /\
    execute (boot []) 6 17 5 = Ok (r, boot []) /\
    17 = 5 * q + r /\ 0 <= r < 5 /\ isWord q.
Proof.
  apply (DIV_MOD_quotient_remainder (boot []) 17 5);
    unfold isWord; lia.
Defined.

(** X15. [Step] panics exactly when the instruction is DIV or MOD and its
    second operand evaluates to zero; for every other instruction and
    operand values it returns. *)
Theorem Step_panics_iff_zero_divisor (s s1 s2 : State)
  (ins a b va vb : Word) (pa pb : pointer) :
  decodeOpcode (Ram s (reg s fPC)) = (ins, a, b) ->
  translateOperand (incPC s) a = Ok (va, pa, s1) ->
  translateOperand s1 b = Ok (vb, pb, s2) ->
  (Step s = Panic "runtime error: integer divide by zero" <->
   (ins = 5 \/ ins = 6) /\ vb = 0) /\
  ((exists s' err, Step s = Ok (s', err)) <->
   ~ ((ins = 5 \/ ins = 6) /\ vb = 0)).
Proof.
  intros D Ta Tb.
  destruct (decodeOpcode_bounds _ _ _ _ D) as (Hi & _).
  assert (P : (ins = 5 \/ ins = 6) /\ vb = 0 ->
              Step s = Panic "runtime error: integer divide by zero").
  { intros (C & ->). unfold Step. rewrite D. cbn. rewrite Ta. cbn.
    rewrite Tb. cbn. destruct C as [-> | ->]; reflexivity. }
  assert (Q : ~ ((ins = 5 \/ ins = 6) /\ vb = 0) ->
              exists s' err, Step s = Ok (s', err)).
  { intros N.
    destruct (execute_total s2 ins va vb) as (val & s3 & E); [exact Hi| |].
    - intros C Z0. apply N. split; assumption.
    - rewrite (Step_phases _ _ _ _ _ _ _ _ _ _ _ _ D Ta Tb E).
      destruct (store s3 (Ram s (reg s fPC)) ins va vb val pa) as [s' err].
      exists s', err. reflexivity. }
  split; split.
  - intros H.
    destruct (Z.eq_dec vb 0) as [Z0|Nz];
      [destruct (Z.eq_dec ins 5); [tauto|];
       destruct (Z.eq_dec ins 6); [tauto|]|];
      (destruct Q as (s' & err & R); [tauto|congruence]).
  - exact P.
  - intros (s' & err & R) C. rewrite (P C) in R. discriminate.
  - exact Q.
Qed.

Lemma Step_panics_iff_zero_divisor_witness :
  (Step (boot [0x8005]) = Panic "runtime error: integer divide by zero" <->
   (5 = 5 \/ 5 = 6) /\ 0 = 0) /\
  ((exists s' err, Step (boot [0x8005]) = Ok (s', err)) <->
   ~ ((5 = 5 \/ 5 = 6) /\ 0 = 0)).
Proof.
  exact (Step_panics_iff_zero_divisor (boot [0x8005]) _ _ 5 0 32 0 0
           (PReg fA) PNil eq_refl eq_refl eq_refl).
Defined.

(** * The program file *)

Lemma wordOfBytes_value (littleEndian : bool) (b1 b2 : Z) :
  isByte b1 -> isByte b2 ->
  wordOfBytes littleEndian b1 b2 =
  if littleEndian then 256 * b2 + b1 else 256 * b1 + b2.
Proof.
  unfold isByte, wordOfBytes, wrap. intros H1 H2.
  rewrite !Z.shiftl_mul_pow2 by lia. change (2 ^ 8) with 256.
  destruct littleEndian; Z.to_euclidean_division_equations; lia.
Qed.

Lemma nth_isByte (data : list Z) (n : nat) :
  Forall isByte data -> isByte (nth n data 0).
Proof.
  intros F. destruct (nth_in_or_default n data 0) as [Hin| ->].
  - rewrite Forall_forall in F. apply F. exact Hin.
  - unfold isByte. lia.
Qed.

Lemma nth_map_in {T U : Type} (f : T -> U) (l : list T) (i : nat)
  (d : U) (d' : T) :
  (i < List.length l)%nat -> nth i (map f l) d = f (nth i l d').
Proof.
  revert i. induction l as [|x l IH]; intros i Hi; cbn in *; [lia|].
  destruct i as [|i]; [reflexivity|]. apply IH. lia.
Qed.

Lemma wordsOfData_nth (littleEndian : bool) (data : list Z) (i : nat) :
  (i < Nat.div (List.length data) 2)%nat ->
  nth i (wordsOfData littleEndian data) 0 =
  wordOfBytes littleEndian (nth (i * 2) data 0) (nth (i * 2 + 1) data 0).
Proof.
  intros Hi. unfold wordsOfData.
  rewrite (nth_map_in _ _ _ _ O) by (rewrite length_seq; exact Hi).
  rewrite seq_nth by exact Hi. reflexivity.
Qed.

(** X16. The file is read two bytes to a word, high byte first unless
    little-endian is selected: there are [len/2] words, each is 16-bit,
    and word [i] holds bytes [2i] and [2i+1] as its high and low byte
    (low and high for little-endian), so the bytes can be read back
    from the words. *)
Theorem wordsOfData_bytes (littleEndian : bool) (data : list Z) (i : nat) :
  Forall isByte data ->
  (i < Nat.div (List.length data) 2)%nat ->
  let w := nth i (wordsOfData littleEndian data) 0 in
  List.length (wordsOfData littleEndian data) = Nat.div (List.length data) 2 /\
  isWord w /\
  nth (i * 2) data 0 = (if littleEndian then w mod 256 else w / 256) /\
  nth (i * 2 + 1) data 0 = (if littleEndian then w / 256 else w mod 256).
Proof.
  intros F Hi w. subst w. rewrite wordsOfData_nth by exact Hi.
  pose proof (nth_isByte data (i * 2) F) as H1.
  pose proof (nth_isByte data (i * 2 + 1) F) as H2.
  rewrite wordOfBytes_value by assumption.
  unfold isByte in *. unfold isWord.
  split; [unfold wordsOfData; rewrite length_map, length_seq; reflexivity|].
  destruct littleEndian; cbv iota;
    (split; [lia|]); split; Z.to_euclidean_division_equations; lia.
Qed.

Lemma wordsOfData_bytes_witness :
  Forall isByte [0x7C; 0x01; 0x00; 0x30; 0xFF] /\
  (1 < Nat.div (List.length [0x7C; 0x01; 0x00; 0x30; 0xFF]) 2)%nat /\
  wordsOfData false [0x7C; 0x01; 0x00; 0x30; 0xFF] = [0x7C01; 0x0030] /\
  nth (1 * 2 + 1) [0x7C; 0x01; 0x00; 0x30; 0xFF] 0 =
    nth 1 (wordsOfData false [0x7C; 0x01; 0x00; 0x30; 0xFF]) 0 mod 256.
Proof.
  assert (F : Forall isByte [0x7C; 0x01; 0x00; 0x30; 0xFF])
    by (repeat constructor; unfold isByte; lia).
  assert (Hi : (1 < Nat.div (List.length [0x7C; 0x01; 0x00; 0x30; 0xFF]) 2)%nat)
    by (cbn; lia).
  split; [exact F|]. split; [exact Hi|]. split; [reflexivity|].
  exact (proj2 (proj2 (proj2
    (wordsOfData_bytes false [0x7C; 0x01; 0x00; 0x30; 0xFF] 1 F Hi)))).
Defined.

(** X17. A trailing odd byte is dropped: appending one byte to data of
    even length does not change the words read. *)
Theorem wordsOfData_odd_byte (littleEndian : bool) (data : list Z) (x : Z) :
  Nat.even (List.length data) = true ->
  wordsOfData littleEndian (data ++ [x]) = wordsOfData littleEndian data.
Proof.
  intros Hev. unfold wordsOfData.
  apply Nat.even_spec in Hev. destruct Hev as [k Hk].
  rewrite length_app. cbn [List.length]. rewrite Hk.
  replace (Nat.div (2 * k + 1) 2) with k
    by (apply Nat.div_unique with (r := 1%nat); lia).
  replace (Nat.div (2 * k) 2) with k
    by (apply Nat.div_unique with (r := 0%nat); lia).
  apply map_ext_in. intros i Hi. apply in_seq in Hi.
  rewrite !app_nth1 by lia. reflexivity.
Qed.

Lemma wordsOfData_odd_byte_witness :
  Nat.even (List.length [0x7C; 0x01]) = true /\
  wordsOfData false ([0x7C; 0x01] ++ [0xFF]) = wordsOfData false [0x7C; 0x01].
Proof.
  split; [reflexivity|].
  exact (wordsOfData_odd_byte false [0x7C; 0x01] 0xFF eq_refl).
Defined.

(** * The video peripheral *)

Lemma Some_inj {T : Type} (x y : T) : Some x = Some y -> x = y.
Proof. intros H. inversion H. reflexivity. Qed.

Lemma colorToAttr_total (tb : Termbox) (sx : bool) (color : Z) :
  0 <= color < 16 -> exists attr, colorToAttr tb sx color = Ok attr.
Proof.
  intros H. unfold colorToAttr. destruct sx; [|eexists; reflexivity].
  code_cases color 4%nat; try lia; cbn; eexists; reflexivity.
Qed.

Lemma nibble_bounds (word : Z) :
  let colors := (Z.shiftr (Z.land word 0xFF00) 8) mod 256 in
  0 <= Z.shiftr (Z.land colors 0xF0) 4 < 16 /\
  0 <= Z.land colors 0x0F < 16.
Proof.
  intros colors.
  rewrite Z.shiftr_land. change (Z.shiftr 0xF0 4) with 15.
  change 0x0F with 15. rewrite !land_15.
  split; apply Z.mod_pos_bound; lia.
Qed.

(** What [updateCell] draws: one cell, one column and one row further
    than asked (for the border), with a printable character. *)
Lemma updateCell_draws (tb : Termbox) (sx : bool) (row column : Z)
  (word : Word) :
  exists ch fg bg,
    updateCell tb sx row column word =
      Ok [mkSetCell (column + 1) (row + 1) ch fg bg] /\
    32 <= ch <= 126 /\
    (32 <= Z.land word 0x7F < 127 -> ch = Z.land word 0x7F).
Proof.
  unfold updateCell.
  destruct (nibble_bounds word) as (Hf & Hb). cbv zeta in Hf, Hb.
  destruct (colorToAttr_total tb sx _ Hf) as (fg & ->).
  destruct (colorToAttr_total tb sx _ Hb) as (bg & ->).
  cbn [bind].
  assert (Hch : 0 <= Z.land word 0x7F < 128).
  { change 0x7F with (Z.ones 7). rewrite Z.land_ones by lia.
    apply Z.mod_pos_bound. lia. }
  generalize dependent (Z.land word 0x7F). intros c Hc.
  destruct ((c <? 32) || (c =? 127)) eqn:Alt.
  - eexists _, _, _. split; [reflexivity|].
    apply orb_true_iff in Alt. rewrite Z.ltb_lt, Z.eqb_eq in Alt.
    split; [|lia].
    destruct (Z.eqb_spec c 127) as [->|N]; [cbn; lia|].
    destruct (glyphMap c) as [g|] eqn:G.
    + unfold glyphMap in G.
      code_cases c 2%nat; try discriminate G;
        apply Some_inj in G; subst g; lia.
    + pose proof (Z.mod_pos_bound c 26). lia.
  - eexists _, _, _. split; [reflexivity|].
    apply orb_false_iff in Alt. rewrite Z.ltb_ge, Z.eqb_neq in Alt.
    split; [lia|reflexivity].
Qed.

Lemma border_color_bounds (w : Z) : 0 <= (Z.land w 0xf) mod 256 < 16.
Proof.
  change 0xf with 15. rewrite land_15.
  pose proof (Z.mod_pos_bound w 16).
  rewrite Z.mod_small; lia.
Qed.

Lemma drawBorder_total (tb : Termbox) (sx : bool) (v : Video) :
  exists calls, drawBorder tb sx v = Ok calls.
Proof.
  destruct (colorToAttr_total tb sx _ (border_color_bounds (words v 0x280)))
    as (attr & E).
  unfold drawBorder. change backgroundColorAddress with 0x280.
  rewrite E. cbn [bind]. eexists. reflexivity.
Qed.

(** X18. [drawBorder] never fails and draws 92 blank cells, all on the
    frame around the 32x12 display (column 0 or 33, or row 0 or 13, of
    the 34x14 window), with the default foreground and with the
    attribute of the colour in the low four bits of word 0x280 as
    background. *)
Theorem drawBorder_frame (tb : Termbox) (sx : bool) (v : Video) :
  exists attr calls,
    colorToAttr tb sx ((Z.land (words v 0x280) 0xf) mod 256) = Ok attr /\
    drawBorder tb sx v = Ok calls /\
    List.length calls = 92%nat /\
    Forall (fun c =>
              cellCh c = 32 /\ cellFg c = ColorDefault tb /\
              cellBg c = attr /\
              0 <= cellX c <= 33 /\ 0 <= cellY c <= 13 /\
              (cellX c = 0 \/ cellX c = 33 \/ cellY c = 0 \/ cellY c = 13))
           calls.
Proof.
  destruct (colorToAttr_total tb sx _ (border_color_bounds (words v 0x280)))
    as (attr & E).
  exists attr. eexists. split; [exact E|].
  unfold drawBorder. change backgroundColorAddress with 0x280.
  rewrite E. cbn [bind]. split; [reflexivity|].
  split; [reflexivity|].
  cbn. repeat (apply Forall_cons; [cbn; repeat split; lia|]).
  apply Forall_nil.
Qed.

(** X19. [handleChange] never fails.  For an offset below 0x180 it
    redraws exactly one cell: column [offset mod 32 + 1], row
    [offset / 32 + 1], inside the frame, distinct offsets giving
    distinct cells; the character drawn is printable (32..126) and is
    the low seven bits of the word when those are printable.  For the
    offset 0x280 it draws the border.  For every other offset it draws
    nothing. *)
Theorem handleChange_redraw (tb : Termbox) (sx : bool) (v : Video)
  (offset : Word) :
  0 <= offset ->
  exists calls,
    handleChange tb sx v offset = Ok calls /\
    (offset < 0x180 ->
     exists ch fg bg,
       calls = [mkSetCell (offset mod 32 + 1) (offset / 32 + 1) ch fg bg] /\
       1 <= offset mod 32 + 1 <= 32 /\ 1 <= offset / 32 + 1 <= 12 /\
       offset = 32 * (offset / 32 + 1 - 1) + (offset mod 32 + 1 - 1) /\
       32 <= ch <= 126 /\
       (32 <= Z.land (words v offset) 0x7F < 127 ->
        ch = Z.land (words v offset) 0x7F)) /\
    (offset = 0x280 -> drawBorder tb sx v = Ok calls) /\
    (0x180 <= offset -> offset <> 0x280 -> calls = []).
Proof.
  intros Hpos. unfold handleChange.
  change characterRangeStart with 0x180. change miscRangeStart with 0x280.
  change backgroundColorAddress with 0x280. change windowWidth with 32.
  destruct (Z.ltb_spec offset 0x180) as [Hc|Hc].
  - destruct (updateCell_draws tb sx (offset / 32) (offset mod 32)
                (words v offset)) as (ch & fg & bg & U & Hch & Hsame).
    eexists. split; [exact U|]. split; [|split; intros; lia].
    intros _. exists ch, fg, bg. split; [reflexivity|].
    split; [Z.to_euclidean_division_equations; lia|].
    split; [Z.to_euclidean_division_equations; lia|].
    split; [Z.to_euclidean_division_equations; lia|].
    split; assumption.
  - destruct (Z.ltb_spec offset 0x280) as [Hm|Hm].
    + exists []. split; [reflexivity|].
      split; [intros; lia|]. split; [intros; lia|reflexivity].
    + destruct (Z.eqb_spec offset 0x280) as [->|N].
      * destruct (drawBorder_total tb sx v) as (calls & B).
        exists calls. split; [exact B|].
        split; [intros; lia|]. split; [intros _; exact B|intros; lia].
      * exists []. split; [reflexivity|].
        split; [intros; lia|]. split; [intros; lia|reflexivity].
Qed.

Lemma handleChange_redraw_witness :
  exists calls,
    handleChange (mkTermbox 0 1 2 3 4 5 6 (fun x => x)) false
      (mkVideo 60 (fun i => if i =? 0x21 then 0x0041 else 0) false) 0x21
    = Ok calls /\
    exists ch fg bg,
      calls = [mkSetCell 2 2 ch fg bg] /\ ch = 0x41.
Proof.
  assert (Hpos : 0 <= 0x21) by lia.
  destruct (handleChange_redraw (mkTermbox 0 1 2 3 4 5 6 (fun x => x)) false
              (mkVideo 60 (fun i => if i =? 0x21 then 0x0041 else 0) false)
              0x21 Hpos) as (calls & H & Hcell & _).
  exists calls. split; [exact H|].
  assert (Hlt : 0x21 < 0x180) by lia.
  destruct (Hcell Hlt) as (ch & fg & bg & Hc & _ & _ & _ & _ & Hsame).
  exists ch, fg, bg. split; [exact Hc|].
  apply Hsame. cbn. lia.
Defined.

Lemma In_range (from i : Z) (count : nat) :
  from <= i < from + Z.of_nat count -> In i (range from count).
Proof.
  intros H. unfold range. apply in_map_iff.
  exists (Z.to_nat (i - from)). split; [lia|].
  apply in_seq. lia.
Qed.

(** X20. The border and the display area partition the 34x14 window:
    [clearDisplay] followed by [drawBorder] sets every cell of the
    window exactly once, and [drawBorder] sets a cell exactly when it is
    on the frame, so it never touches a cell of the 32x12 display. *)
Theorem border_and_display_partition (tb : Termbox) (sx : bool) (v : Video)
  (calls : list SetCell) (x y : Z) :
  drawBorder tb sx v = Ok calls ->
  0 <= x <= 33 -> 0 <= y <= 13 ->
  cellsAt x y (clearDisplay tb ++ calls) = 1%nat /\
  (cellsAt x y calls = 1%nat <-> x = 0 \/ x = 33 \/ y = 0 \/ y = 13) /\
  (cellsAt x y calls = 0%nat <-> 1 <= x <= 32 /\ 1 <= y <= 12).
Proof.
  intros B Hx Hy.
  destruct (colorToAttr_total tb sx _ (border_color_bounds (words v 0x280)))
    as (attr & E).
  unfold drawBorder in B. change backgroundColorAddress with 0x280 in B.
  rewrite E in B. cbn [bind] in B. apply Ok_inj in B. subst calls.
  match goal with
  | |- context [clearDisplay tb ++ ?b] => set (border := b)
  end.
  assert (C : forallb
                (fun x =>
                   forallb
                     (fun y =>
                        Nat.eqb (cellsAt x y (clearDisplay tb ++ border)) 1 &&
                        Nat.eqb (cellsAt x y border)
                                (if (x =? 0) || (x =? 33) ||
                                    (y =? 0) || (y =? 13)
                                 then 1 else 0))
                     (range 0 14))
                (range 0 34) = true)
    by (vm_compute; reflexivity).
  rewrite forallb_forall in C.
  specialize (C x (In_range 0 x 34 ltac:(lia))).
  rewrite forallb_forall in C.
  specialize (C y (In_range 0 y 14 ltac:(lia))).
  apply andb_true_iff in C. destruct C as [C1 C2].
  apply Nat.eqb_eq in C1. apply Nat.eqb_eq in C2.
  split; [exact C1|]. rewrite C2.
  destruct (Z.eqb_spec x 0); destruct (Z.eqb_spec x 33);
    destruct (Z.eqb_spec y 0); destruct (Z.eqb_spec y 13);
    cbn [orb]; split; split; intros; try lia; try discriminate.
Qed.

Lemma border_and_display_partition_witness :
  exists calls,
    drawBorder (mkTermbox 0 1 2 3 4 5 6 (fun x => x)) false
               (mkVideo 60 (fun _ => 0) false) = Ok calls /\
    cellsAt 5 7 (clearDisplay (mkTermbox 0 1 2 3 4 5 6 (fun x => x)) ++ calls)
      = 1%nat /\
    cellsAt 5 7 calls = 0%nat.
Proof.
  eexists. split; [reflexivity|].
  assert (Hx : 0 <= 5 <= 33) by lia.
  assert (Hy : 0 <= 7 <= 13) by lia.
  destruct (border_and_display_partition
              (mkTermbox 0 1 2 3 4 5 6 (fun x => x)) false
              (mkVideo 60 (fun _ => 0) false) _ 5 7 eq_refl Hx Hy)
    as (H1 & _ & H0).
  split; [exact H1|]. apply H0. lia.
Defined.

Lemma handleChange_total (tb : Termbox) (sx : bool) (v : Video)
  (offset : Word) :
  0 <= offset -> exists calls, handleChange tb sx v offset = Ok calls.
Proof.
  intros _. unfold handleChange.
  destruct (offset <? characterRangeStart).
  - destruct (updateCell_draws tb sx (offset / windowWidth)
                (offset mod windowWidth) (words v offset))
      as (ch & fg & bg & U & _).
    eexists. exact U.
  - destruct (offset <? miscRangeStart); [eexists; reflexivity|].
    destruct (offset =? backgroundColorAddress); [|eexists; reflexivity].
    apply drawBorder_total.
Qed.

(** X21. The callbacks of the mapped video: for an offset below 0x400
    [set] succeeds, a following [get] of that offset returns the value
    set, every other offset reads as before, and [set] draws what
    [handleChange] draws on the updated words; at offset 0x400 or above
    both panic with an index out of range. *)
Theorem videoSet_then_videoGet (tb : Termbox) (sx : bool) (v : Video)
  (offset val : Word) :
  0 <= offset < 0x400 ->
  exists v' calls,
    videoSet tb sx v offset val = Ok (v', calls) /\
    handleChange tb sx v' offset = Ok calls /\
    videoGet v' offset = Ok val /\
    (forall o, o <> offset -> videoGet v' o = videoGet v o) /\
    mapped v' = mapped v /\
    (forall o, 0x400 <= o ->
       videoGet v o = Panic "runtime error: index out of range" /\
       videoSet tb sx v o val = Panic "runtime error: index out of range").
Proof.
  intros H. unfold videoSet.
  destruct (Z.ltb_spec offset 0x400) as [_|]; [|lia].
  set (v' := mkVideo _ _ _).
  destruct (handleChange_total tb sx v' offset) as (calls & Hc); [lia|].
  exists v', calls. rewrite Hc. cbn [bind].
  split; [reflexivity|]. split; [reflexivity|]. split.
  - unfold videoGet. destruct (Z.ltb_spec offset 0x400); [|lia].
    subst v'. cbn. rewrite Z.eqb_refl. reflexivity.
  - split.
    + intros o No. unfold videoGet. destruct (o <? 0x400); [|reflexivity].
      subst v'. cbn. destruct (Z.eqb_spec o offset); [contradiction|].
      reflexivity.
    + split; [reflexivity|].
      intros o Ho. unfold videoGet.
      destruct (Z.ltb_spec o 0x400); [lia|]. split; reflexivity.
Qed.

Lemma videoSet_then_videoGet_witness :
  exists v' calls,
    videoSet (mkTermbox 0 1 2 3 4 5 6 (fun x => x)) false
             (mkVideo 60 (fun _ => 0) false) 0x21 0x41 = Ok (v', calls) /\
    videoGet v' 0x21 = Ok 0x41.
Proof.
  assert (H : 0 <= 0x21 < 0x400) by lia.
  destruct (videoSet_then_videoGet (mkTermbox 0 1 2 3 4 5 6 (fun x => x))
              false (mkVideo 60 (fun _ => 0) false) 0x21 0x41 H)
    as (v' & calls & S & _ & G & _).
  exists v', calls. split; assumption.
Defined.

(** X22. A video is mapped at most once at a time.  After a
    [MapToMachine] that succeeded, every further [MapToMachine] is
    refused and leaves the video and the machine as they are, whatever
    [MapRegion] would answer; an [UnmapFromMachine] that succeeds clears
    the flag, keeps the words, and every further [UnmapFromMachine] is
    refused likewise. *)
Theorem map_unmap_protocol {M : Type}
  (MapRegion :
     M -> Word -> Word ->
     (Video -> Word -> result Word) ->
     (Video -> Word -> Word -> result (Video * list SetCell)) ->
     M * option string)
  (UnmapRegion : M -> Word -> Word -> M * option string)
  (tb : Termbox) (sx : bool) (v v1 v2 : Video) (offset : Word) (m m1 m2 : M) :
  MapToMachine MapRegion tb sx v offset m = (v1, m1, None) ->
  UnmapFromMachine UnmapRegion v1 offset m1 = (v2, m2, None) ->
  mapped v = false /\ mapped v1 = true /\ mapped v2 = false /\
  words v2 = words v /\
  (forall offset' m',
      MapToMachine MapRegion tb sx v1 offset' m' =
      (v1, m', Some "Video is already mapped to a machine"%string)) /\
  (forall offset' m',
      UnmapFromMachine UnmapRegion v2 offset' m' =
      (v2, m', Some "Video is not mapped to a machine"%string)).
Proof.
  unfold MapToMachine, UnmapFromMachine. intros Hm Hu.
  destruct (mapped v) eqn:Mv; [discriminate|].
  destruct (MapRegion m offset 1024 videoGet (videoSet tb sx)) as [ma ea].
  destruct ea as [e|]; [discriminate|].
  inversion Hm; subst v1 m1; clear Hm.
  cbn [mapped setMapped negb] in Hu.
  destruct (UnmapRegion ma offset 1024) as [mb eb].
  destruct eb as [e|]; [discriminate|].
  inversion Hu; subst v2 m2; clear Hu.
  repeat split.
Qed.

Lemma map_unmap_protocol_witness :
  mapped (mkVideo 60 (fun _ => 0) false) = false /\
  forall (offset' : Word) (m' : nat),
    MapToMachine (fun m _ _ _ _ => (S m, None)) (mkTermbox 0 1 2 3 4 5 6 (fun x => x))
      false (setMapped (mkVideo 60 (fun _ => 0) false) true) offset' m' =
    (setMapped (mkVideo 60 (fun _ => 0) false) true, m',
     Some "Video is already mapped to a machine"%string).
Proof.
  destruct (map_unmap_protocol
              (fun (m : nat) _ _ _ _ => (S m, None))
              (fun (m : nat) _ _ => (S m, None))
              (mkTermbox 0 1 2 3 4 5 6 (fun x => x)) false
              (mkVideo 60 (fun _ => 0) false) _ _ 0x8000 O _ _
              eq_refl eq_refl) as (H0 & _ & _ & _ & H & _).
  split; [exact H0|exact H].
Defined.
